(** * Agglomerated neighborhoods: cache layer and pool workers

    A shallow embedding of [cache_io.py], [mp_helpers.py] and the
    [ols_r2] function of [utilities.py], with the properties of the
    specification stated over it.

    Conventions.
    - Python exceptions are explicit: a computation that may raise has
      type [res A]; [try_except] is the [try: ... except Exception: ...]
      block.
    - Python floats are the kernel's binary64 floats, compared with the
      IEEE comparisons ([nan] is not equal to itself).
    - Python [str] is [string]; its order is the lexicographic order on
      the characters ([String.leb]).
    - [dict] and [set] arguments are [gmap] and [gset], listed in the
      order of [map_to_list] and [elements]; structured metadata (what
      [json] reads and writes) is the value type [pyval]. *)

From Stdlib Require Import ZArith Floats.
From stdpp Require Import gmap strings list sorting.

Local Open Scope string_scope.
Local Open Scope Z_scope.
Set Warnings "-register-all,-clear-no-such-hyp".

(** ** Python values and exceptions *)

Module Py.

Inductive exn : Set :=
| AttributeError | TypeError | KeyError | IndexError | ValueError
| ZeroDivisionError | LinAlgError | OSError.

Inductive res (A : Type) : Type :=
| Ok (a : A)
| Raise (e : exn).
Arguments Ok {A} a.
Arguments Raise {A} e.

#[global] Instance res_ret : MRet res := @Ok.
#[global] Instance res_bind : MBind res := fun A B f m =>
  match m with Ok a => f a | Raise e => Raise e end.

#[global] Instance res_fmap : FMap res := fun A B f m =>
  match m with Ok a => Ok (f a) | Raise e => Raise e end.

(** [try: body except Exception: handler]. *)
Definition try_except {A} (body : res A) (handler : res A) : res A :=
  match body with Ok a => Ok a | Raise _ => handler end.

Definition raises {A} (m : res A) : Prop := ∃ e, m = Raise e.

(** What [json.load] produces and [json.dump] accepts. A [dict] keeps its
    items in insertion order; [dict_get] is the lookup. *)
Inductive pyval : Type :=
| PNone
| PBool (b : bool)
| PInt (z : Z)
| PFloat (f : float)
| PStr (s : string)
| PList (l : list pyval)
| PDict (d : list (string * pyval)).

Fixpoint dict_get (k : string) (d : list (string * pyval)) : option pyval :=
  match d with
  | [] => None
  | (k', v) :: d' => if String.eqb k k' then Some v else dict_get k d'
  end.

(** [float == int]: exact comparison of the float's value with the
    integer. *)
Definition float_eq_Z (f : float) (z : Z) : bool :=
  match Prim2SF f with
  | S754_zero _ => z =? 0
  | S754_finite s m e =>
      let v := if s then Z.neg m else Z.pos m in
      if 0 <=? e then z =? v * 2 ^ e else z * 2 ^ (- e) =? v
  | _ => false
  end.

(** Python's [==] on these values: numbers compare by value across
    [bool], [int] and [float]; lists elementwise; dicts by key set and
    value, whatever the order of the items. *)
Fixpoint py_eq (x y : pyval) {struct x} : bool :=
  match x, y with
  | PNone, PNone => true
  | PBool a, PBool b => Bool.eqb a b
  | PBool a, PInt z | PInt z, PBool a => Z.b2z a =? z
  | PBool a, PFloat f | PFloat f, PBool a => float_eq_Z f (Z.b2z a)
  | PInt a, PInt b => a =? b
  | PInt z, PFloat f | PFloat f, PInt z => float_eq_Z f z
  | PFloat a, PFloat b => (a =? b)%float
  | PStr a, PStr b => String.eqb a b
  | PList a, PList b =>
      (fix go (a b : list pyval) : bool :=
         match a, b with
         | [], [] => true
         | u :: a', v :: b' => py_eq u v && go a' b'
         | _, _ => false
         end) a b
  | PDict a, PDict b =>
      (length a =? length b)%nat &&
      (fix go (a : list (string * pyval)) : bool :=
         match a with
         | [] => true
         | (k, u) :: a' =>
             match dict_get k b with
             | Some v => py_eq u v
             | None => false
             end && go a'
         end) a
  | _, _ => false
  end.

(** [obj.get(key, default)]: an [AttributeError] unless [obj] is a dict. *)
Definition py_get (obj : pyval) (key : string) (default : pyval) : res pyval :=
  match obj with
  | PDict d => Ok (from_option id default (dict_get key d))
  | _ => Raise AttributeError
  end.

Definition of_opt {A} (inj : A → pyval) (o : option A) : pyval :=
  from_option inj PNone o.

End Py.

(** ** [cache_io.py] *)

Module CacheIO.
Import Py.

Definition ALGO_VERSION : string := "2025-11-14a".

(** *** The operating system, as far as the cache layer sees it *)

(** What [Path.stat] and [Path.resolve] give for a path. *)
Record stat_result : Type := {
  st_resolved : string;
  st_size : Z;
  st_mtime : float;
}.

(** A row of the scores table. *)
Record score_row : Type := {
  sr_tile_a : string;
  sr_tile_b : string;
  sr_r2 : float;
  sr_n_obs : Z;
  sr_n_sales : Z;
}.

(** A data frame as the cache reads and writes it: the edge list has the
    columns [tile_a], [tile_b]; the scores table has [r2], [n_obs] and
    [n_sales] beside them. [pd.DataFrame([])] is [AdjFrame []]. *)
Inductive dataframe : Type :=
| AdjFrame (rows : list (string * string))
| ScoresFrame (rows : list score_row).

Definition df_len (df : dataframe) : nat :=
  match df with
  | AdjFrame rows => length rows
  | ScoresFrame rows => length rows
  end.

Inductive content : Type :=
| JsonText (v : pyval)
| Parquet (df : dataframe)
| Garbage.

(** A path names a directory or a file; a file the process may not open
    has [accessible = false]. Paths are plain strings: the tree above the
    cache directory is not modelled. *)
Inductive node : Type :=
| Directory
| RegularFile (accessible : bool) (c : content).

Abbreviation filesystem := (gmap string node).

(** [Path(d).mkdir(parents=True, exist_ok=True)]. *)
Definition mkdir_p (fs : filesystem) (d : string) : res filesystem :=
  match fs !! d with
  | Some Directory => Ok fs
  | Some (RegularFile _ _) => Raise OSError
  | None => Ok (<[d := Directory]> fs)
  end.

Definition path_exists (fs : filesystem) (p : string) : bool :=
  bool_decide (is_Some (fs !! p)).

Definition read_file (fs : filesystem) (p : string) : res content :=
  match fs !! p with
  | Some (RegularFile true c) => Ok c
  | _ => Raise OSError
  end.

Definition write_file (fs : filesystem) (p : string) (c : content) : res filesystem :=
  match fs !! p with
  | Some Directory | Some (RegularFile false _) => Raise OSError
  | _ => Ok (<[p := RegularFile true c]> fs)
  end.

(** [json.load(open(p))]. *)
Definition json_load (fs : filesystem) (p : string) : res pyval :=
  c ← read_file fs p;
  match c with JsonText v => Ok v | _ => Raise ValueError end.

(** [pd.read_parquet(p)]. *)
Definition read_parquet (fs : filesystem) (p : string) : res dataframe :=
  c ← read_file fs p;
  match c with Parquet df => Ok df | _ => Raise ValueError end.

(** *** Fingerprints *)

Definition _file_fingerprint (stat : string → res stat_result) (path : string) : pyval :=
  match stat path with
  | Ok st =>
      PDict [("path", PStr (st_resolved st));
             ("size", PInt (st_size st));
             ("mtime", PFloat (st_mtime st))]
  | Raise _ => PDict [("path", PStr path); ("size", PNone); ("mtime", PNone)]
  end.

(** The tile table, as far as [_tiles_signature] reads it: the two
    identifier columns, each present or not, already as strings. *)
Record tiles_table : Type := {
  col_tile_key : option (list string);
  col_key : option (list string);
}.

Definition newline : string := String (Ascii.ascii_of_nat 10) EmptyString.

(** [sorted] on a list of [str]. *)
Definition sorted (l : list string) : list string := merge_sort String.le l.

Definition _tiles_signature (sha256_hex : string → string) (tiles_gdf : tiles_table) : pyval :=
  let keys :=
    match col_tile_key tiles_gdf with
    | Some keys => Some keys
    | None => col_key tiles_gdf
    end in
  match keys with
  | None => PDict [("n_tiles", PNone); ("keys_hash", PNone)]
  | Some keys_list =>
      let keys_sorted := sorted keys_list in
      let h := sha256_hex (String.concat newline keys_sorted) in
      PDict [("n_tiles", PInt (Z.of_nat (length keys_sorted)));
             ("keys_hash", PStr h)]
  end.

Definition make_cache_key (stat : string → res stat_result)
    (sha256_hex : string → string)
    (parcels_path tiles_path : string) (buffer_feet : float)
    (crs_epsg_feet : option Z) (k_neighbors : Z)
    (tiles_after_filter : tiles_table) : pyval :=
  PDict [("parcels", _file_fingerprint stat parcels_path);
         ("tiles", _file_fingerprint stat tiles_path);
         ("params", PDict [("buffer_feet", PFloat buffer_feet);
                           ("crs_epsg_feet", of_opt PInt crs_epsg_feet);
                           ("k_neighbors", PInt k_neighbors)]);
         ("tiles_sig", _tiles_signature sha256_hex tiles_after_filter);
         ("algo_version", PStr ALGO_VERSION)].

(** [x.get(outer, {}).get(inner)]. *)
Definition get2 (x : pyval) (outer inner : string) : res pyval :=
  d ← py_get x outer (PDict []);
  py_get d inner PNone.

(** [A == B and rest], with A evaluated before B and [rest] only when
    they are equal. *)
Definition and_eq (a b : res pyval) (rest : res bool) : res bool :=
  u ← a; v ← b;
  if py_eq u v then rest else Ok false.

Definition cache_valid_body (cached_meta current_meta : pyval) : res bool :=
  and_eq (py_get cached_meta "algo_version" PNone) (py_get current_meta "algo_version" PNone) (
  and_eq (py_get cached_meta "params" PNone) (py_get current_meta "params" PNone) (
  and_eq (py_get cached_meta "tiles_sig" PNone) (py_get current_meta "tiles_sig" PNone) (
  and_eq (get2 cached_meta "parcels" "mtime") (get2 current_meta "parcels" "mtime") (
  and_eq (get2 cached_meta "parcels" "size") (get2 current_meta "parcels" "size") (
  and_eq (get2 cached_meta "tiles" "mtime") (get2 current_meta "tiles" "mtime") (
  and_eq (get2 cached_meta "tiles" "size") (get2 current_meta "tiles" "size") (
  Ok true))))))).

Definition cache_valid (cached_meta current_meta : pyval) : res bool :=
  try_except (cache_valid_body cached_meta current_meta) (Ok false).

(** *** The Fingerprint of the data model and its layout as a dict *)

Record file_identity : Type := {
  fi_path : string;
  fi_size : option Z;
  fi_mtime : option float;
}.

Record parameter_set : Type := {
  ps_buffer_feet : float;
  ps_crs_epsg_feet : option Z;
  ps_k_neighbors : Z;
}.

Record tile_signature : Type := {
  ts_n_tiles : option Z;
  ts_keys_hash : option string;
}.

Record fingerprint : Type := {
  fp_parcels : file_identity;
  fp_tiles : file_identity;
  fp_params : parameter_set;
  fp_tiles_sig : tile_signature;
  fp_algo_version : string;
}.

Definition file_identity_dict (i : file_identity) : pyval :=
  PDict [("path", PStr (fi_path i));
         ("size", of_opt PInt (fi_size i));
         ("mtime", of_opt PFloat (fi_mtime i))].

Definition parameter_set_dict (p : parameter_set) : pyval :=
  PDict [("buffer_feet", PFloat (ps_buffer_feet p));
         ("crs_epsg_feet", of_opt PInt (ps_crs_epsg_feet p));
         ("k_neighbors", PInt (ps_k_neighbors p))].

Definition tile_signature_dict (t : tile_signature) : pyval :=
  PDict [("n_tiles", of_opt PInt (ts_n_tiles t));
         ("keys_hash", of_opt PStr (ts_keys_hash t))].

Definition fingerprint_dict (f : fingerprint) : pyval :=
  PDict [("parcels", file_identity_dict (fp_parcels f));
         ("tiles", file_identity_dict (fp_tiles f));
         ("params", parameter_set_dict (fp_params f));
         ("tiles_sig", tile_signature_dict (fp_tiles_sig f));
         ("algo_version", PStr (fp_algo_version f))].

(** The fingerprint [make_cache_key] computes, field by field. *)
Definition stat_identity (stat : string → res stat_result) (path : string) : file_identity :=
  match stat path with
  | Ok st => {| fi_path := st_resolved st; fi_size := Some (st_size st);
                fi_mtime := Some (st_mtime st) |}
  | Raise _ => {| fi_path := path; fi_size := None; fi_mtime := None |}
  end.

Definition tiles_identity (sha256_hex : string → string) (t : tiles_table) : tile_signature :=
  match col_tile_key t, col_key t with
  | None, None => {| ts_n_tiles := None; ts_keys_hash := None |}
  | Some keys, _ | None, Some keys =>
      {| ts_n_tiles := Some (Z.of_nat (length (sorted keys)));
         ts_keys_hash := Some (sha256_hex (String.concat newline (sorted keys))) |}
  end.

(** IEEE equality on an optional float: two nulls are equal. *)
Definition opt_float_eqb (a b : option float) : bool :=
  match a, b with
  | None, None => true
  | Some x, Some y => (x =? y)%float
  | _, _ => false
  end.

(** A file identity that recorded no size and no modification time, and a
    tile-set signature that recorded no count and no hash. *)
Definition degraded_identity (i : file_identity) : Prop :=
  fi_size i = None ∧ fi_mtime i = None.

Definition degraded_signature (t : tile_signature) : Prop :=
  ts_n_tiles t = None ∧ ts_keys_hash t = None.

(** Two file identities match when size and modification time do; the
    path is not looked at. *)
Definition identity_match (i j : file_identity) : Prop :=
  fi_size i = fi_size j ∧ opt_float_eqb (fi_mtime i) (fi_mtime j) = true.

Definition params_match (p q : parameter_set) : Prop :=
  (ps_buffer_feet p =? ps_buffer_feet q)%float = true ∧
  ps_crs_epsg_feet p = ps_crs_epsg_feet q ∧
  ps_k_neighbors p = ps_k_neighbors q.

Definition fingerprints_match (f g : fingerprint) : Prop :=
  fp_algo_version f = fp_algo_version g ∧
  params_match (fp_params f) (fp_params g) ∧
  fp_tiles_sig f = fp_tiles_sig g ∧
  identity_match (fp_parcels f) (fp_parcels g) ∧
  identity_match (fp_tiles f) (fp_tiles g).

(** The comparison [cache_valid] performs on two fingerprints, as one
    boolean. *)
Definition matchb (f g : fingerprint) : bool :=
  String.eqb (fp_algo_version f) (fp_algo_version g) &&
  ((ps_buffer_feet (fp_params f) =? ps_buffer_feet (fp_params g))%float &&
   bool_decide (ps_crs_epsg_feet (fp_params f) = ps_crs_epsg_feet (fp_params g)) &&
   (ps_k_neighbors (fp_params f) =? ps_k_neighbors (fp_params g))) &&
  (bool_decide (ts_n_tiles (fp_tiles_sig f) = ts_n_tiles (fp_tiles_sig g)) &&
   bool_decide (ts_keys_hash (fp_tiles_sig f) = ts_keys_hash (fp_tiles_sig g))) &&
  opt_float_eqb (fi_mtime (fp_parcels f)) (fi_mtime (fp_parcels g)) &&
  bool_decide (fi_size (fp_parcels f) = fi_size (fp_parcels g)) &&
  opt_float_eqb (fi_mtime (fp_tiles f)) (fi_mtime (fp_tiles g)) &&
  bool_decide (fi_size (fp_tiles f) = fi_size (fp_tiles g)).

Definition with_path (p : string) (i : file_identity) : file_identity :=
  {| fi_path := p; fi_size := fi_size i; fi_mtime := fi_mtime i |}.

(** The same fingerprint with the two source files at other paths. *)
Definition relocated (parcels_path tiles_path : string) (f : fingerprint) : fingerprint :=
  {| fp_parcels := with_path parcels_path (fp_parcels f);
     fp_tiles := with_path tiles_path (fp_tiles f);
     fp_params := fp_params f;
     fp_tiles_sig := fp_tiles_sig f;
     fp_algo_version := fp_algo_version f |}.

(** *** The cache store *)

Record paths : Type := {
  p_meta : string;
  p_adj : string;
  p_scores : string;
}.

Definition cache_paths (fs : filesystem) (cache_dir prefix : string) : res (filesystem * paths) :=
  fs' ← mkdir_p fs cache_dir;
  Ok (fs', {| p_meta := cache_dir +:+ "/" +:+ prefix +:+ "_meta.json";
              p_adj := cache_dir +:+ "/" +:+ prefix +:+ "_adj.parquet";
              p_scores := cache_dir +:+ "/" +:+ prefix +:+ "_scores.parquet" |}).

(** An edge score as [save_cache] accepts it: an object with attributes,
    or a dict. A field is [None] when the attribute (the key) is absent or
    holds [None]. *)
Inductive score_obj : Type :=
| ScoreRecord (r2 : option float) (n_obs n_sales : option Z)
| ScoreDict (r2 : option float) (n_obs n_sales : option Z).

(** [getattr(es, name, None)]: a plain dict has none of the attributes. *)
Definition getattr_r2 (es : score_obj) : option float :=
  match es with ScoreRecord r _ _ => r | ScoreDict _ _ _ => None end.
Definition getattr_n_obs (es : score_obj) : option Z :=
  match es with ScoreRecord _ o _ => o | ScoreDict _ _ _ => None end.
Definition getattr_n_sales (es : score_obj) : option Z :=
  match es with ScoreRecord _ _ s => s | ScoreDict _ _ _ => None end.

Definition is_dict (es : score_obj) : bool :=
  match es with ScoreDict _ _ _ => true | ScoreRecord _ _ _ => false end.

Definition score_fields (es : score_obj) : option float * option Z * option Z :=
  let r2 := getattr_r2 es in
  let n_obs := getattr_n_obs es in
  let n_sales := getattr_n_sales es in
  if bool_decide (r2 = None) && is_dict es then
    match es with
    | ScoreDict r o s => (r, o, s)
    | ScoreRecord _ _ _ => (r2, n_obs, n_sales)
    end
  else (r2, n_obs, n_sales).

(** The rows of the edge list: one per [(a, b)] with [b] a neighbour of
    [a] and [a < b]. *)
Definition adjacency_rows (adjacency : gmap string (gset string)) : list (string * string) :=
  '(a, nbs) ← map_to_list adjacency;
  b ← elements nbs;
  if String.ltb a b then [(a, b)] else [].

(** [a, b = sorted(list(k))]: a [ValueError] unless [k] has two elements. *)
Definition unpack_sorted (k : gset string) : res (string * string) :=
  match sorted (elements k) with
  | [a; b] => Ok (a, b)
  | _ => Raise ValueError
  end.

(** The body of the loop over [edge_scores.items()]: the row appended
    for an item, none when the key does not unpack. *)
Definition score_row_of (item : gset string * score_obj) : list score_row :=
  let '(k, es) := item in
  match unpack_sorted k with
  | Raise _ => []
  | Ok (a, b) =>
      let '(r2, n_obs, n_sales) := score_fields es in
      [{| sr_tile_a := a; sr_tile_b := b;
          sr_r2 := default 0%float r2;
          sr_n_obs := default 0 n_obs;
          sr_n_sales := default 0 n_sales |}]
  end.

Definition score_rows (edge_scores : gmap (gset string) score_obj) : list score_row :=
  map_to_list edge_scores ≫= score_row_of.

Definition save_cache (fs : filesystem)
    (adjacency : gmap string (gset string))
    (edge_scores : gmap (gset string) score_obj)
    (meta : pyval) (cache_dir prefix : string) : res filesystem :=
  '(fs, paths) ← cache_paths fs cache_dir prefix;
  fs ← write_file fs (p_meta paths) (JsonText meta);
  fs ← write_file fs (p_adj paths) (Parquet (AdjFrame (adjacency_rows adjacency)));
  write_file fs (p_scores paths) (Parquet (ScoresFrame (score_rows edge_scores))).

Definition load_cache (fs : filesystem) (cache_dir prefix : string)
    : res (filesystem * (option pyval * option dataframe * option dataframe)) :=
  '(fs, paths) ← cache_paths fs cache_dir prefix;
  r ← try_except
        (meta ← (if path_exists fs (p_meta paths)
                 then Some <$> json_load fs (p_meta paths) else Ok None);
         df_adj ← (if path_exists fs (p_adj paths)
                   then Some <$> read_parquet fs (p_adj paths) else Ok None);
         df_scores ← (if path_exists fs (p_scores paths)
                      then Some <$> read_parquet fs (p_scores paths) else Ok None);
         Ok (meta, df_adj, df_scores))
        (Ok (None, None, None));
  Ok (fs, r).

(** What [load_cache] returns for one of the three files when nothing
    fails: null when the file is missing, what was read otherwise. *)
Definition component {A} (read : filesystem → string → res A)
    (fs : filesystem) (p : string) (o : option A) : Prop :=
  (fs !! p = None ∧ o = None) ∨ (∃ v, read fs p = Ok v ∧ o = Some v).

(** The file exists and reading it raises. *)
Definition unreadable {A} (read : filesystem → string → res A)
    (fs : filesystem) (p : string) : Prop :=
  is_Some (fs !! p) ∧ raises (read fs p).

(** [adj.setdefault(a, set()).add(b)]. *)
Definition add_neighbor (a b : string) (adj : gmap string (gset string))
    : gmap string (gset string) :=
  <[a := default ∅ (adj !! a) ∪ {[b]}]> adj.

(** The columns [tile_a], [tile_b] of a frame, row by row. *)
Definition tile_columns (df : dataframe) : list (string * string) :=
  match df with
  | AdjFrame rows => rows
  | ScoresFrame rows => (λ r, (sr_tile_a r, sr_tile_b r)) <$> rows
  end.

(** The body of the loop of [df_to_adjacency]. *)
Definition add_row (adj : gmap string (gset string)) (row : string * string)
    : gmap string (gset string) :=
  let '(a, b) := row in add_neighbor b a (add_neighbor a b adj).

Definition df_to_adjacency (df_adj : option dataframe) : gmap string (gset string) :=
  match df_adj with
  | None => ∅
  | Some df =>
      if (df_len df =? 0)%nat then ∅
      else foldl add_row ∅ (tile_columns df)
  end.

(** The adjacency relation of a graph: the neighbour set of a tile, empty
    for a tile the mapping has no entry for. *)
Definition neighbors (adj : gmap string (gset string)) (a : string) : gset string :=
  default ∅ (adj !! a).

Definition symmetric (adj : gmap string (gset string)) : Prop :=
  ∀ a b, b ∈ neighbors adj a ↔ a ∈ neighbors adj b.

Definition loop_free (adj : gmap string (gset string)) : Prop :=
  ∀ a, a ∉ neighbors adj a.

Record edge_score : Type := {
  r2 : float;
  n_obs : Z;
  n_sales : Z;
}.

(** [row.get(name, default)] on the rows of a frame: the edge list has no
    score column, so the defaults apply. *)
Definition score_columns (df : dataframe) : list (string * string * edge_score) :=
  match df with
  | AdjFrame rows =>
      (λ '(a, b), (a, b, {| r2 := 0%float; n_obs := 0; n_sales := 0 |})) <$> rows
  | ScoresFrame rows =>
      (λ r, (sr_tile_a r, sr_tile_b r,
             {| r2 := sr_r2 r; n_obs := sr_n_obs r; n_sales := sr_n_sales r |})) <$> rows
  end.

(** The body of the loop of [df_to_edge_scores]: a row with an empty
    endpoint is skipped. *)
Definition add_score (out : gmap (gset string) edge_score)
    (row : string * string * edge_score) : gmap (gset string) edge_score :=
  let '(a, b, es) := row in
  if String.eqb a "" || String.eqb b "" then out
  else <[ ({[a; b]} : gset string) := es ]> out.

Definition df_to_edge_scores (df_scores : option dataframe)
    : gmap (gset string) edge_score :=
  match df_scores with
  | None => ∅
  | Some df =>
      if (df_len df =? 0)%nat then ∅
      else foldl add_score ∅ (score_columns df)
  end.

(** The row [save_cache] writes for an edge score. *)
Definition score_of (es : score_obj) : edge_score :=
  let '(r, o, s) := score_fields es in
  {| r2 := default 0%float r; n_obs := default 0 o; n_sales := default 0 s |}.

(** What [save_cache] leaves behind when it returns. *)
Record saved (fs : filesystem) (dir prefix : string) (meta : pyval)
    (adj_rows : list (string * string)) (sc_rows : list score_row) : Prop := {
  saved_dir : fs !! dir = Some Directory;
  saved_meta :
    fs !! (dir +:+ "/" +:+ prefix +:+ "_meta.json") = Some (RegularFile true (JsonText meta));
  saved_adj :
    fs !! (dir +:+ "/" +:+ prefix +:+ "_adj.parquet")
    = Some (RegularFile true (Parquet (AdjFrame adj_rows)));
  saved_scores :
    fs !! (dir +:+ "/" +:+ prefix +:+ "_scores.parquet")
    = Some (RegularFile true (Parquet (ScoresFrame sc_rows)));
}.

(** Saving, loading, and converting the loaded rows back. *)
Definition round_trip (fs : filesystem)
    (adjacency : gmap string (gset string))
    (edge_scores : gmap (gset string) score_obj)
    (meta : pyval) (cache_dir prefix : string)
    : res (gmap string (gset string) * gmap (gset string) edge_score) :=
  fs ← save_cache fs adjacency edge_scores meta cache_dir prefix;
  '(_, (_, df_adj, df_scores)) ← load_cache fs cache_dir prefix;
  Ok (df_to_adjacency df_adj, df_to_edge_scores df_scores).

(** Nothing stands in the way of [save_cache]: the cache directory exists
    or can be created, and each of the three files is absent or an
    accessible regular file. *)
Definition writable (fs : filesystem) (p : string) : Prop :=
  fs !! p = None ∨ ∃ c, fs !! p = Some (RegularFile true c).

Definition cache_writable (fs : filesystem) (dir prefix : string) : Prop :=
  (fs !! dir = None ∨ fs !! dir = Some Directory) ∧
  writable fs (dir +:+ "/" +:+ prefix +:+ "_meta.json") ∧
  writable fs (dir +:+ "/" +:+ prefix +:+ "_adj.parquet") ∧
  writable fs (dir +:+ "/" +:+ prefix +:+ "_scores.parquet").

(** The values an edge score holds, and the two shapes [save_cache]
    accepts them in. *)
Definition carries (es : score_obj) (v : edge_score) : Prop :=
  es = ScoreRecord (Some (r2 v)) (Some (n_obs v)) (Some (n_sales v)) ∨
  es = ScoreDict (Some (r2 v)) (Some (n_obs v)) (Some (n_sales v)).

(** An edge key: an unordered pair of two distinct tile ids. *)
Definition edge_key (k : gset string) : Prop :=
  ∃ a b, a ≠ b ∧ k = {[a; b]}.

End CacheIO.

(** ** The numerical engine

    [numpy]'s least-squares solver and its reductions are taken as an
    interface: which floating-point operations LAPACK and the pairwise
    summation perform, and in which order, is not fixed by the program.
    The elementwise operations and everything on scalars are the IEEE
    operations themselves. *)

Module Np.
Import Py.

Abbreviation vector := (list float).
Abbreviation matrix := (list (list float)).

Class Engine : Type := {
  (** [np.linalg.lstsq(A, y, rcond=None)[0]] *)
  lstsq : matrix → vector → res vector;
  (** [A.dot(beta)] *)
  dot : matrix → vector → vector;
  (** [np.sum(v)] *)
  sum : vector → float;
  (** [v.mean()] *)
  mean : vector → float;
}.

(** [np.column_stack([np.ones(len(X)), X])] *)
Definition column_stack_ones (X : matrix) : matrix :=
  (λ row, 1%float :: row) <$> X.

(** [(u - v) ** 2], elementwise, for two vectors of the same length. *)
Definition sq_diff (u v : vector) : vector :=
  zip_with (λ a b, ((a - b) * (a - b))%float) u v.

(** [(u - c) ** 2] for a scalar [c]. *)
Definition sq_dev (u : vector) (c : float) : vector :=
  (λ a, ((a - c) * (a - c))%float) <$> u.

(** [np.sum((y - yhat) ** 2)] and [np.sum((y - y.mean()) ** 2)] *)
Definition ss_res_of `{Engine} (y yhat : vector) : float := sum (sq_diff y yhat).
Definition ss_tot_of `{Engine} (y : vector) : float := sum (sq_dev y (mean y)).

(** The builtin [min(x, y)] and [max(x, y)] on floats: the first
    argument unless the second is strictly smaller (larger). *)
Definition py_min (x y : float) : float := if (y <? x)%float then y else x.
Definition py_max (x y : float) : float := if (x <? y)%float then y else x.

(** [max(min(r2, 1.0), -1.0)] *)
Definition clamp (r2 : float) : float := py_max (py_min r2 1) (-1).

(** [x / y] on Python floats. *)
Definition py_truediv (x y : float) : res float :=
  if (y =? 0)%float then Raise ZeroDivisionError else Ok (x / y)%float.

End Np.

(** ** [utilities.py] *)

Module Utilities.
Import Py Np.

Definition ols_r2 `{Engine} (y : vector) (X : matrix) : res float :=
  let X_ := column_stack_ones X in
  match lstsq X_ y with
  | Raise LinAlgError => Ok 0%float
  | Raise e => Raise e
  | Ok beta =>
      let yhat := dot X_ beta in
      let ss_res := ss_res_of y yhat in
      let ss_tot := ss_tot_of y in
      if (ss_tot <=? 0)%float then Ok 0%float
      else
        let r2 := (1 - ss_res / ss_tot)%float in
        if negb (is_finite r2) then Ok 0%float
        else Ok (clamp r2)
  end.

End Utilities.

(** ** [mp_helpers.py] *)

Module MpHelpers.
Import Py Np.

(** A parcel of the slim parcels table. A missing value is [nan]. *)
Record parcel : Type := {
  adj_sale_price : float;
  market_value_proxy : float;
  built_area_sqft : float;
  land_area_sqft : float;
}.

(** The slim parcels table: its rows, and which of the four columns it
    has (the value of a row in a column the table lacks is not read). *)
Record parcels_table : Type := {
  has_adj_sale_price : bool;
  has_market_value_proxy : bool;
  has_built_area_sqft : bool;
  has_land_area_sqft : bool;
  parcel_rows : list parcel;
}.

(** [l[i]] and [df.iloc[[...]]]: negative positions count from the end. *)
Definition py_index {A} (l : list A) (i : Z) : res A :=
  let n := Z.of_nat (length l) in
  let k := if i <? 0 then i + n else i in
  if (0 <=? k) && (k <? n) then
    match l !! Z.to_nat k with
    | Some x => Ok x
    | None => Raise IndexError
    end
  else Raise IndexError.

(** A position no element of [l] has, counted from either end. *)
Definition out_of_range {A} (l : list A) (i : Z) : Prop :=
  i < - Z.of_nat (length l) ∨ Z.of_nat (length l) ≤ i.

Fixpoint take_rows {A} (l : list A) (idxs : list Z) : res (list A) :=
  match idxs with
  | [] => Ok []
  | i :: idxs' => x ← py_index l i; xs ← take_rows l idxs'; Ok (x :: xs)
  end.

Definition iloc (df : parcels_table) (idxs : list Z) : res parcels_table :=
  rows ← take_rows (parcel_rows df) idxs;
  Ok {| has_adj_sale_price := has_adj_sale_price df;
        has_market_value_proxy := has_market_value_proxy df;
        has_built_area_sqft := has_built_area_sqft df;
        has_land_area_sqft := has_land_area_sqft df;
        parcel_rows := rows |}.

Definition notna (x : float) : bool := negb (is_nan x).

(** [int(sub["adj_sale_price"].notna().sum())] *)
Definition count_sales (sub : parcels_table) : Z :=
  Z.of_nat (length (filter (λ p, notna (adj_sale_price p) = true) (parcel_rows sub))).

(** [... if "adj_sale_price" in sub.columns else 0] *)
Definition n_sales_of (sub : parcels_table) : Z :=
  if has_adj_sale_price sub then count_sales sub else 0.

(** The target and the design matrix of the fit. *)
Definition target (df : list parcel) : vector := market_value_proxy <$> df.
Definition design (df : list parcel) : matrix :=
  (λ p, [built_area_sqft p; land_area_sqft p]) <$> df.

(** [all(c in sub.columns for c in cols)] *)
Definition has_regression_columns (sub : parcels_table) : bool :=
  has_market_value_proxy sub && has_built_area_sqft sub && has_land_area_sqft sub.

Definition complete (p : parcel) : bool :=
  notna (market_value_proxy p) && notna (built_area_sqft p) && notna (land_area_sqft p).

(** [sub[cols].astype(float).dropna()] *)
Definition dropna (sub : parcels_table) : list parcel :=
  filter (λ p, complete p = true) (parcel_rows sub).

(** [a, b = pair] *)
Definition unpack2 {A} (pair : list A) : res (A * A) :=
  match pair with
  | [a; b] => Ok (a, b)
  | _ => Raise ValueError
  end.

Section workers.
(** The geometry engine: the buffered geometries, their intersection
    (which may raise), and the [area] attribute of the result (an
    [AttributeError] when it has none). *)
Context {geom : Type}.
Variable intersection : geom → geom → res geom.
Variable area : geom → res float.
Context `{Engine}.

(** The module globals the pool initializers set. *)
Record globals : Type := {
  _BUFFERED_GEOMS : option (list geom);
  _PARCELS_MIN_DF : option parcels_table;
  _PARCEL_IDX_BY_TILE : option (gmap string (gset Z));
}.

Definition initial_globals : globals :=
  {| _BUFFERED_GEOMS := None; _PARCELS_MIN_DF := None; _PARCEL_IDX_BY_TILE := None |}.

Definition _init_pool_buffered (geoms_list : list geom) (g : globals) : globals :=
  {| _BUFFERED_GEOMS := Some geoms_list;
     _PARCELS_MIN_DF := _PARCELS_MIN_DF g;
     _PARCEL_IDX_BY_TILE := _PARCEL_IDX_BY_TILE g |}.

Definition _init_pool_edges (parcels_min_df : parcels_table)
    (parcel_idx_by_tile : gmap string (gset Z)) (g : globals) : globals :=
  {| _BUFFERED_GEOMS := _BUFFERED_GEOMS g;
     _PARCELS_MIN_DF := Some parcels_min_df;
     _PARCEL_IDX_BY_TILE := Some parcel_idx_by_tile |}.

(** [getattr(inter, "area", 0.0)]: the default replaces an
    [AttributeError] only. *)
Definition getattr_area (inter : geom) : res float :=
  match area inter with
  | Raise AttributeError => Ok 0%float
  | r => r
  end.

(** Using a global that is still [None] raises. *)
Definition the {A} (e : exn) (o : option A) : res A :=
  match o with Some x => Ok x | None => Raise e end.

Definition pair_overlaps_area_body (g : globals) (pair : list Z) : res (option (Z * Z)) :=
  '(i, j) ← unpack2 pair;
  geoms ← the TypeError (_BUFFERED_GEOMS g);
  gi ← py_index geoms i;
  gj ← py_index geoms j;
  inter ← intersection gi gj;
  a ← getattr_area inter;
  if (0 <? a)%float then Ok (Some (i, j)) else Ok None.

Definition _pair_overlaps_area (g : globals) (pair : list Z) : res (option (Z * Z)) :=
  try_except (pair_overlaps_area_body g pair) (Ok None).

(** Lines 86 to 99 of the worker: the R² of the fit, with its inner
    [try], the finiteness guard and the clamp. *)
Definition inline_r2_try (y : vector) (X : matrix) : res float :=
  let X_ := column_stack_ones X in
  beta ← lstsq X_ y;
  let yhat := dot X_ beta in
  let ss_res := ss_res_of y yhat in
  let ss_tot := ss_tot_of y in
  if (ss_tot <=? 0)%float then Ok 0%float
  else q ← py_truediv ss_res ss_tot; Ok (1 - q)%float.

Definition inline_r2 (y : vector) (X : matrix) : float :=
  let r2 := match inline_r2_try y X with Ok r2 => r2 | Raise _ => 0%float end in
  let r2 := if negb (is_finite r2) then 0%float else r2 in
  clamp r2.

(** [(mapping.get(a, set()) or set()) | (mapping.get(b, set()) or set())] *)
Definition gathered (g : globals) (a b : string) : gset Z :=
  let mapping := default ∅ (_PARCEL_IDX_BY_TILE g) in
  default ∅ (mapping !! a) ∪ default ∅ (mapping !! b).

(** Lines 75 to 100 of the worker: the result once the parcels of the
    pair are gathered in [sub]. *)
Definition score_gathered (a b : string) (sub : parcels_table)
    : string * string * float * Z * Z :=
  let n_sales := n_sales_of sub in
  let len_sub := Z.of_nat (length (parcel_rows sub)) in
  if n_sales <? 3 then (a, b, 0%float, len_sub, n_sales)
  else if negb (has_regression_columns sub) then (a, b, 0%float, len_sub, n_sales)
  else
    let df := dropna sub in
    if (Z.of_nat (length df) <? 3) then (a, b, 0%float, len_sub, n_sales)
    else
      let y := target df in
      let X := design df in
      (a, b, inline_r2 y X, Z.of_nat (length df), n_sales).

(** The body of the outer [try]. [idxs] lists the union in the order of
    [elements]: the rows of [sub] come in that order. *)
Definition score_edge_pair_body (g : globals) (pair : list string)
    : res (string * string * float * Z * Z) :=
  '(a, b) ← unpack2 pair;
  let idxs := elements (gathered g a b) in
  if (length idxs =? 0)%nat then Ok (a, b, 0%float, 0, 0)
  else
    parcels ← the AttributeError (_PARCELS_MIN_DF g);
    sub ← iloc parcels idxs;
    Ok (score_gathered a b sub).

(** The parcels gathered for a pair: [_PARCELS_MIN_DF.iloc[idxs]]. *)
Definition gather (g : globals) (a b : string) : res parcels_table :=
  parcels ← the AttributeError (_PARCELS_MIN_DF g);
  iloc parcels (elements (gathered g a b)).

(** The pair reaches the fit: parcels were gathered, at least 3 have a
    sale price, the regression columns are there and at least 3 rows are
    complete. *)
Definition fitted (g : globals) (a b : string) (sub : parcels_table) : Prop :=
  gathered g a b ≠ ∅ ∧ gather g a b = Ok sub ∧
  3 ≤ n_sales_of sub ∧ has_regression_columns sub = true ∧
  3 ≤ Z.of_nat (length (dropna sub)).

Definition _score_edge_pair_worker (g : globals) (pair : list string)
    : res (string * string * float * Z * Z) :=
  try_except (score_edge_pair_body g pair)
    (let '(a, b) := match unpack2 pair with Ok ab => ab | Raise _ => ("", "") end in
     Ok (a, b, 0%float, 0, 0)).

End workers.

End MpHelpers.

(** ** The worker pool and the collection of a batch's results *)

Module Fabric.
Import Py CacheIO MpHelpers.

(** [[f(x) for x in items]]: the first exception ends the batch. *)
Fixpoint map_items {A B} (f : A → res B) (items : list A) : res (list B) :=
  match items with
  | [] => Ok []
  | x :: items' => y ← f x; ys ← map_items f items'; Ok (y :: ys)
  end.

(** Modelled from the spec: the pool of section 4.5, which is not among
    the sources. An assignment hands each worker process its share of the
    work list (one inner list per worker, so its length is the worker
    count); every worker applies the per-item function to its share, and
    the batch is the workers' results taken together. *)
Definition pool_map {A B} (f : A → res B) (assignment : list (list A)) : res (list B) :=
  map_items f (mjoin assignment).

(** Modelled from the spec: the adjacency engine of section 4.3 collects
    the non-null results into a set of index pairs. *)
Definition add_pair (acc : gset (Z * Z)) (result : option (Z * Z)) : gset (Z * Z) :=
  match result with Some p => acc ∪ {[p]} | None => acc end.

Definition collect_pairs (results : list (option (Z * Z))) : gset (Z * Z) :=
  foldl add_pair ∅ results.

(** The EdgeKey and the EdgeScore of a result tuple. *)
Definition edge_key_of (result : string * string * float * Z * Z) : gset string :=
  let '(a, b, _, _, _) := result in {[a; b]}.

Definition edge_score_of (result : string * string * float * Z * Z) : edge_score :=
  let '(_, _, r, o, s) := result in {| r2 := r; n_obs := o; n_sales := s |}.

(** Modelled from the spec: the scoring engine keeps one EdgeScore per
    EdgeKey, the unordered pair of the two tile ids; a later result for
    the same key replaces an earlier one. *)
Definition collect_scores (results : list (string * string * float * Z * Z))
    : gmap (gset string) edge_score :=
  foldl (λ acc result, <[edge_key_of result := edge_score_of result]> acc) ∅ results.

(** A work item is a 2-tuple; the worker receives it as its [pair]. *)
Definition on_pair {A B} (worker : list A → B) (item : A * A) : B :=
  worker [item.1; item.2].

(** Results are coherent when two of them under the same key carry the
    same score. *)
Definition coherent (results : list (string * string * float * Z * Z)) : Prop :=
  ∀ r r', r ∈ results → r' ∈ results →
          edge_key_of r = edge_key_of r' → edge_score_of r = edge_score_of r'.

(** What the workers return for a work item, as values: neither raises
    (see [Workers]). *)
Definition scoring_result {geom : Type} `{Np.Engine} (g : @globals geom)
    (item : string * string) : string * string * float * Z * Z :=
  match on_pair (_score_edge_pair_worker g) item with
  | Ok r => r
  | Raise _ => (item.1, item.2, 0%float, 0, 0)
  end.

Definition adjacency_result {geom : Type}
    (intersection : geom → geom → res geom) (area : geom → res float)
    (g : @globals geom) (item : Z * Z) : option (Z * Z) :=
  match on_pair (_pair_overlaps_area intersection area g) item with
  | Ok r => r
  | Raise _ => None
  end.

End Fabric.

(** ** [cache_io.py]: what the cache key reads of its inputs *)

Module CacheKeys.
Import Py CacheIO.

(** The identifier column [_tiles_signature] reads: [tile_key], and
    [key] only when there is no [tile_key]. *)
Definition id_column (t : tiles_table) : option (list string) :=
  match col_tile_key t with
  | Some keys => Some keys
  | None => col_key t
  end.

(** The modification time [stat] reports for a path, if it reports one,
    is a number. *)
Definition mtime_is_number (stat : string → res stat_result) (path : string) : Prop :=
  ∀ st, stat path = Ok st → is_nan (st_mtime st) = false.

(** The five keys of the metadata [cache_valid] reads. *)
Definition compared_keys : list string :=
  ["algo_version"; "params"; "tiles_sig"; "parcels"; "tiles"].

(** The three files of a cache, as [cache_paths] names them. *)
Definition cache_files (cache_dir prefix : string) : list string :=
  [cache_dir +:+ "/" +:+ prefix +:+ "_meta.json";
   cache_dir +:+ "/" +:+ prefix +:+ "_adj.parquet";
   cache_dir +:+ "/" +:+ prefix +:+ "_scores.parquet"].

(** The key of a row of the scores table and the values it carries. *)
Definition row_key (row : score_row) : gset string :=
  {[sr_tile_a row; sr_tile_b row]}.

Definition row_score (row : score_row) : edge_score :=
  {| r2 := sr_r2 row; n_obs := sr_n_obs row; n_sales := sr_n_sales row |}.

(** The tiles that occur as an endpoint of some row. *)
Definition endpoint (rows : list (string * string)) (a : string) : Prop :=
  ∃ b, (a, b) ∈ rows ∨ (b, a) ∈ rows.

(** The rows [df_to_edge_scores] stores under a key: those with two
    non-empty ids that make up the key, in either order. *)
Definition rows_for (k : gset string) (rows : list score_row) : list score_row :=
  filter (λ row, sr_tile_a row ≠ "" ∧ sr_tile_b row ≠ "" ∧ row_key row = k) rows.

(** The graph read back from the edge list [save_cache] writes. *)
Definition reloaded (adjacency : gmap string (gset string)) : gmap string (gset string) :=
  df_to_adjacency (Some (AdjFrame (adjacency_rows adjacency))).

End CacheKeys.

(** ** [utilities.py]: the market-value proxy *)

Module MarketValue.
Import Py Np.

(** A parcel as [compute_market_value_proxy] reads it: the sale field and
    the assessed field, a missing value being [nan]. *)
Record valued : Type := {
  sale_value : float;
  assessed_value : float;
}.

(** The parcels table: its rows, and which of the two fields it has as a
    column ([parcels.get(field)] is [None] for a field it lacks). *)
Record valuation_table : Type := {
  has_sale_field : bool;
  has_assessed_field : bool;
  valued_rows : list valued;
}.

Definition get_sale (parcels : valuation_table) : option vector :=
  if has_sale_field parcels then Some (sale_value <$> valued_rows parcels) else None.

Definition get_assessed (parcels : valuation_table) : option vector :=
  if has_assessed_field parcels then Some (assessed_value <$> valued_rows parcels) else None.

(** [series.isna().all()] *)
Definition all_isna (v : vector) : bool := forallb is_nan v.

(** [proxy[mask] = values[mask]] *)
Fixpoint mask_assign (proxy : vector) (mask : list bool) (values : vector) : vector :=
  match proxy, mask, values with
  | p :: proxy', m :: mask', v :: values' =>
      (if m then v else p) :: mask_assign proxy' mask' values'
  | _, _, _ => proxy
  end.

(** A method call on a column that is [None] is an [AttributeError]. *)
Definition column (o : option vector) : res vector :=
  match o with Some v => Ok v | None => Raise AttributeError end.

Definition compute_market_value_proxy (parcels : valuation_table) : res vector :=
  let sale := get_sale parcels in
  let assessed := get_assessed parcels in
  match sale with
  | None => column assessed
  | Some sale =>
      if all_isna sale then column assessed
      else
        assessed ← column assessed;
        let both := zip_with (λ s a, negb (is_nan s) && negb (is_nan a)) sale assessed in
        let proxy := assessed in
        let proxy :=
          mask_assign proxy both (zip_with (λ s a, ((s + a) / 2)%float) sale assessed) in
        let only_sale := zip_with (λ s a, negb (is_nan s) && is_nan a) sale assessed in
        let proxy := mask_assign proxy only_sale sale in
        Ok proxy
  end.

(** The proxy of one parcel: the mean of the two values when both are
    there, the one that is there otherwise. *)
Definition proxy_of (with_sale : bool) (p : valued) : float :=
  if with_sale && negb (is_nan (sale_value p)) then
    if is_nan (assessed_value p) then sale_value p
    else ((sale_value p + assessed_value p) / 2)%float
  else assessed_value p.

End MarketValue.

(** ** [mp_helpers.py]: what the fit reads of a parcel *)

Module FitInputs.
Import Py Np MpHelpers.

(** The three regression fields of a parcel, [cols] of the worker. *)
Definition regression_fields (p : parcel) : float * float * float :=
  (market_value_proxy p, built_area_sqft p, land_area_sqft p).

(** Two parcels tables with the same regression columns, row by row:
    they may differ in the sale prices, and in having that column. *)
Definition same_regression_data (t t' : parcels_table) : Prop :=
  has_market_value_proxy t = has_market_value_proxy t' ∧
  has_built_area_sqft t = has_built_area_sqft t' ∧
  has_land_area_sqft t = has_land_area_sqft t' ∧
  regression_fields <$> parcel_rows t = regression_fields <$> parcel_rows t'.

End FitInputs.

(** ** Sample inputs *)

Module Samples.
Import Py CacheIO.

(** A run whose two source files were read and whose tile table has its
    identifier column. *)
Definition healthy : fingerprint :=
  {| fp_parcels := {| fi_path := "/data/parcels.gpkg"; fi_size := Some 4096;
                      fi_mtime := Some 1700000000%float |};
     fp_tiles := {| fi_path := "/data/tiles.gpkg"; fi_size := Some 2048;
                    fi_mtime := Some 1700000100%float |};
     fp_params := {| ps_buffer_feet := 50%float; ps_crs_epsg_feet := Some 2272;
                     ps_k_neighbors := 8 |};
     fp_tiles_sig := {| ts_n_tiles := Some 3; ts_keys_hash := Some "9f86d081884c7d65" |};
     fp_algo_version := ALGO_VERSION |}.

(** The parcels file one second younger. *)
Definition touched : fingerprint :=
  {| fp_parcels := {| fi_path := "/data/parcels.gpkg"; fi_size := Some 4096;
                      fi_mtime := Some 1700000001%float |};
     fp_tiles := fp_tiles healthy;
     fp_params := fp_params healthy;
     fp_tiles_sig := fp_tiles_sig healthy;
     fp_algo_version := ALGO_VERSION |}.

(** [buffer_feet] changed from 50.0 to 50.0001. *)
#[warnings="-inexact-float"]
Definition rebuffered : fingerprint :=
  {| fp_parcels := fp_parcels healthy;
     fp_tiles := fp_tiles healthy;
     fp_params := {| ps_buffer_feet := 50.0001%float; ps_crs_epsg_feet := Some 2272;
                     ps_k_neighbors := 8 |};
     fp_tiles_sig := fp_tiles_sig healthy;
     fp_algo_version := ALGO_VERSION |}.

(** No file can be stat'ed, and the tile table has neither identifier
    column (so the digest is never computed). *)
Definition stat_fails : string → res stat_result := λ _, Raise OSError.
Definition no_digest : string → string := λ _, "".
Definition no_id_column : tiles_table := {| col_tile_key := None; col_key := None |}.

(** The run of [healthy], had the parcels file not been stat'ed. *)
Definition unreadable_parcels : fingerprint :=
  {| fp_parcels := {| fi_path := "parcels.gpkg"; fi_size := None; fi_mtime := None |};
     fp_tiles := fp_tiles healthy;
     fp_params := fp_params healthy;
     fp_tiles_sig := fp_tiles_sig healthy;
     fp_algo_version := ALGO_VERSION |}.

(** The run of [healthy], had the tile table had no identifier column. *)
Definition no_tile_ids : fingerprint :=
  {| fp_parcels := fp_parcels healthy;
     fp_tiles := fp_tiles healthy;
     fp_params := fp_params healthy;
     fp_tiles_sig := {| ts_n_tiles := None; ts_keys_hash := None |};
     fp_algo_version := ALGO_VERSION |}.

(** A cache directory whose edge list is missing. *)
Definition cache_without_adj : filesystem :=
  {[ ".cache" := Directory;
     ".cache/init_meta.json" := RegularFile true (JsonText (fingerprint_dict healthy));
     ".cache/init_scores.parquet" := RegularFile true (Parquet (ScoresFrame [])) ]}.

(** A regular file stands where the cache directory should be. *)
Definition cache_dir_is_a_file : filesystem :=
  {[ ".cache" := RegularFile true Garbage ]}.

(** Two adjacent tiles and their score. *)
Definition two_tiles : gmap string (gset string) :=
  {[ "t1" := {[ "t2" ]}; "t2" := {[ "t1" ]} ]}.

Definition two_tiles_scores : gmap (gset string) score_obj :=
  {[ {[ "t2"; "t1" ]} := ScoreDict (Some 0.5%float) (Some 4) (Some 3) ]}.

(** A tile whose id is the empty string, adjacent to tile [x]. *)
Definition unnamed_tile : gmap string (gset string) :=
  {[ "" := {[ "x" ]}; "x" := {[ "" ]} ]}.

Definition unnamed_tile_scores : gmap (gset string) score_obj :=
  {[ {[ ""; "x" ]} := ScoreRecord (Some 0.5%float) (Some 4) (Some 3) ]}.

(** Axis-parallel rectangles with integer corners as buffered
    geometries: the intersection of two is a rectangle, empty when they
    do not overlap, and the area is width times height. *)
Record rect : Type := { x0 : Z; y0 : Z; x1 : Z; y1 : Z }.

Definition rect_intersection (r s : rect) : res rect :=
  Ok {| x0 := x0 r `max` x0 s; y0 := y0 r `max` y0 s;
        x1 := x1 r `min` x1 s; y1 := y1 r `min` y1 s |}.

Definition rect_area (r : rect) : res float :=
  Ok (of_uint63 (Uint63.of_Z ((0 `max` (x1 r - x0 r)) * (0 `max` (y1 r - y0 r))))).

Definition square (x y side : Z) : rect :=
  {| x0 := x; y0 := y; x1 := x + side; y1 := y + side |}.

(** Tile 0 and tile 1 overlap in a 1 by 1 square; tile 2 shares only a
    boundary line with tile 1. *)
Definition three_squares : list rect := [square 0 0 2; square 1 1 2; square 3 1 2].

(** An engine that sums from left to right. It solves the systems in
    which every column but the intercept is zero, by the mean of the
    target, and reports every other system as singular. *)
Definition sum_left (v : Np.vector) : float := foldl PrimFloat.add 0%float v.
Definition mean_left (v : Np.vector) : float :=
  (sum_left v / foldl (λ n _, n + 1) 0 v)%float.

Definition left_to_right : Np.Engine :=
  {| Np.lstsq A y :=
       if forallb (λ row, forallb is_zero (tail row)) A
       then Ok (mean_left y :: ((λ _, 0%float) <$> tail (hd [] A)))
       else Raise LinAlgError;
     Np.dot A beta := (λ row, sum_left (zip_with PrimFloat.mul row beta)) <$> A;
     Np.sum := sum_left;
     Np.mean := mean_left |}.

(** Five parcels on two tiles; four of them have a sale price and a
    value. *)
Definition sold (price value : float) : MpHelpers.parcel :=
  {| MpHelpers.adj_sale_price := price; MpHelpers.market_value_proxy := value;
     MpHelpers.built_area_sqft := 0; MpHelpers.land_area_sqft := 0 |}.

Definition five_parcels : MpHelpers.parcels_table :=
  {| MpHelpers.has_adj_sale_price := true;
     MpHelpers.has_market_value_proxy := true;
     MpHelpers.has_built_area_sqft := true;
     MpHelpers.has_land_area_sqft := true;
     MpHelpers.parcel_rows :=
       [sold 100 1; sold 110 2; sold 120 3; sold nan nan; sold 130 5] |}.

Definition payload : @MpHelpers.globals rect :=
  MpHelpers._init_pool_edges five_parcels
    {[ "t1" := {[ 0; 1 ]}; "t2" := {[ 2; 3; 4 ]}; "t3" := {[ 3 ]} ]}
    (MpHelpers._init_pool_buffered three_squares MpHelpers.initial_globals).

Definition degraded_key : pyval :=
  make_cache_key stat_fails no_digest "parcels.gpkg" "tiles.gpkg" 50%float None 8 no_id_column.

End Samples.

(** ** More sample inputs *)

Module MoreSamples.
Import Py CacheIO MpHelpers Samples.

(** The five parcels with other sale prices, four of them again. *)
Definition five_parcels_repriced : parcels_table :=
  {| has_adj_sale_price := true;
     has_market_value_proxy := true;
     has_built_area_sqft := true;
     has_land_area_sqft := true;
     parcel_rows :=
       [sold 7 1; sold nan 2; sold 9 3; sold 8 nan; sold 6 5] |}.

Definition payload_repriced : @globals rect :=
  _init_pool_edges five_parcels_repriced
    {[ "t1" := {[ 0; 1 ]}; "t2" := {[ 2; 3; 4 ]}; "t3" := {[ 3 ]} ]}
    (_init_pool_buffered three_squares initial_globals).

(** The payload with a parcel index the table of five does not have. *)
Definition payload_bad_index : @globals rect :=
  _init_pool_edges five_parcels
    {[ "t1" := {[ 0; 1 ]}; "t2" := {[ 2; 3; 5 ]} ]}
    (_init_pool_buffered three_squares initial_globals).

(** Three tiles with both identifier columns; the same three in another
    order under [key] alone; and two tiles. *)
Definition tiles_by_row : tiles_table :=
  {| col_tile_key := Some ["b"; "a"; "c"]; col_key := Some ["k1"; "k2"; "k3"] |}.
Definition tiles_shuffled : tiles_table :=
  {| col_tile_key := None; col_key := Some ["c"; "b"; "a"] |}.
Definition tiles_fewer : tiles_table :=
  {| col_tile_key := Some ["a"; "b"]; col_key := None |}.

(** A digest that returns its input, and a [stat] that answers the same
    for every path. *)
Definition plain_digest : string → string := λ text, text.
Definition stat_fixed : string → res stat_result :=
  λ path, Ok {| st_resolved := path; st_size := 10; st_mtime := 1.5 |}.

Definition fresh_key : pyval :=
  make_cache_key stat_fixed plain_digest "parcels.gpkg" "tiles.gpkg" 50%float (Some 2263) 8
    tiles_by_row.

(** The items of a metadata dict. *)
Definition items_of (v : pyval) : list (string * pyval) :=
  match v with PDict items => items | _ => [] end.

(** Two edges, and the same two with a row repeated, the rows reversed
    and in another order. *)
Definition edges_once : dataframe := AdjFrame [("a", "b"); ("b", "c")].
Definition edges_shuffled : dataframe := AdjFrame [("c", "b"); ("b", "a"); ("a", "b")].

End MoreSamples.

(** * Properties *)

(** ** Exceptions and Python equality *)

Module PyFacts.
Import Py.

Lemma try_except_total {A} (body : res A) (d : A) :
  ∃ a, try_except body (Ok d) = Ok a.
Proof. destruct body; simpl; eauto. Qed.

Lemma try_except_raises {A} (body : res A) (d : A) :
  raises body → try_except body (Ok d) = Ok d.
Proof. by intros [e ->]. Qed.

Lemma py_eq_none_r x : py_eq x PNone = true → x = PNone.
Proof. by destruct x. Qed.

Lemma py_eq_opt_Z (a b : option Z) :
  py_eq (of_opt PInt a) (of_opt PInt b) = bool_decide (a = b).
Proof.
  destruct a as [a|], b as [b|]; simpl; try done.
  destruct (Z.eqb_spec a b); by rewrite ?bool_decide_eq_true_2, ?bool_decide_eq_false_2 by congruence.
Qed.

Lemma py_eq_opt_str (a b : option string) :
  py_eq (of_opt PStr a) (of_opt PStr b) = bool_decide (a = b).
Proof.
  destruct a as [a|], b as [b|]; simpl; try done.
  destruct (String.eqb_spec a b); by rewrite ?bool_decide_eq_true_2, ?bool_decide_eq_false_2 by congruence.
Qed.

Lemma py_eq_opt_float (a b : option float) :
  py_eq (of_opt PFloat a) (of_opt PFloat b) = CacheIO.opt_float_eqb a b.
Proof. by destruct a, b. Qed.

End PyFacts.

(** ** The cache-validity predicate *)

Module CacheValid.
Import Py CacheIO PyFacts.

#[local] Arguments of_opt : simpl never.

Lemma cache_valid_matchb f g :
  cache_valid (fingerprint_dict f) (fingerprint_dict g) = Ok (matchb f g).
Proof.
  destruct f as [[pp ps pm] [tp ts tm] [bf crs k] [nt kh] av].
  destruct g as [[pp' ps' pm'] [tp' ts' tm'] [bf' crs' k'] [nt' kh'] av'].
  unfold cache_valid, cache_valid_body, matchb, and_eq, get2; cbn.
  rewrite !py_eq_opt_Z, !py_eq_opt_str, !py_eq_opt_float.
  destruct (String.eqb av av'); cbn; [|done].
  destruct (bf =? bf')%float; cbn; [|done].
  destruct (bool_decide (crs = crs')); cbn; [|done].
  destruct (k =? k'); cbn; [|done].
  destruct (bool_decide (nt = nt')); cbn; [|done].
  destruct (bool_decide (kh = kh')); cbn; [|done].
  destruct (opt_float_eqb pm pm'); cbn; [|done].
  destruct (bool_decide (ps = ps')); cbn; [|done].
  destruct (opt_float_eqb tm tm'); cbn; [|done].
  by destruct (bool_decide (ts = ts')).
Qed.

Lemma matchb_spec f g : matchb f g = true ↔ fingerprints_match f g.
Proof.
  unfold matchb, fingerprints_match, params_match, identity_match.
  rewrite !andb_true_iff, !bool_decide_eq_true, String.eqb_eq, Z.eqb_eq.
  destruct (fp_tiles_sig f) as [nt kh], (fp_tiles_sig g) as [nt' kh']; simpl.
  split; [|intros (?&(?&?&?)&[= -> ->]&(?&?)&(?&?)); by repeat split].
  intros [[[[[[? [[? ?] ?]] [-> ->]] ?] ?] ?] ?]; by repeat split.
Qed.

End CacheValid.

Module CacheValidSpec.
Import Py CacheIO PyFacts CacheValid Samples.

Lemma cache_valid_total c m : ∃ b, cache_valid c m = Ok b.
Proof. apply try_except_total. Qed.

(** The dict [make_cache_key] returns is the layout of the fingerprint it
    computes. *)
Lemma make_cache_key_layout stat sha pp tp bf crs k tiles :
  make_cache_key stat sha pp tp bf crs k tiles =
  fingerprint_dict
    {| fp_parcels := stat_identity stat pp;
       fp_tiles := stat_identity stat tp;
       fp_params := {| ps_buffer_feet := bf; ps_crs_epsg_feet := crs; ps_k_neighbors := k |};
       fp_tiles_sig := tiles_identity sha tiles;
       fp_algo_version := ALGO_VERSION |}.
Proof.
  unfold make_cache_key, fingerprint_dict, _file_fingerprint, stat_identity,
    _tiles_signature, tiles_identity.
  destruct tiles as [[?|] [?|]]; destruct (stat pp), (stat tp); reflexivity.
Qed.

Lemma stat_identity_degraded stat path e :
  stat path = Raise e → degraded_identity (stat_identity stat path).
Proof. unfold stat_identity. by intros ->. Qed.

Lemma tiles_identity_degraded sha :
  degraded_signature (tiles_identity sha {| col_tile_key := None; col_key := None |}).
Proof. done. Qed.

Example one_second_later :
  cache_valid (fingerprint_dict healthy) (fingerprint_dict healthy) = Ok true ∧
  cache_valid (fingerprint_dict healthy) (fingerprint_dict touched) = Ok false.
Proof. split; vm_compute; reflexivity. Qed.

Example buffer_50_0001 :
  cache_valid (fingerprint_dict healthy) (fingerprint_dict rebuffered) = Ok false.
Proof. vm_compute; reflexivity. Qed.

Example null_cached_meta m : cache_valid PNone m = Ok false.
Proof. reflexivity. Qed.

Example null_parcels_entry :
  cache_valid (PDict [("parcels", PNone)]) (PDict [("parcels", PNone)]) = Ok false.
Proof. reflexivity. Qed.

(** C1. [cache_valid] on two fingerprints answers [True] exactly when
    the algorithm version, the parameter set and the tile-set signature
    are equal and the parcels and tiles file identities agree on size and
    modification time. The path is not compared: relocating the files of
    either side leaves a valid pair valid. A pair that differs in any
    compared field is answered [False]. An exception inside the
    comparison gives [False], and [cache_valid] itself never raises. *)
Theorem cache_valid_strict_equality :
  (∀ f g, cache_valid (fingerprint_dict f) (fingerprint_dict g) = Ok true
          ↔ fingerprints_match f g) ∧
  (∀ f g p t p' t', fingerprints_match f g →
     cache_valid (fingerprint_dict (relocated p t f))
                 (fingerprint_dict (relocated p' t' g)) = Ok true) ∧
  (∀ f g, ¬ fingerprints_match f g →
     cache_valid (fingerprint_dict f) (fingerprint_dict g) = Ok false) ∧
  (∀ c m, raises (cache_valid_body c m) → cache_valid c m = Ok false) ∧
  (∀ c m, ∃ b, cache_valid c m = Ok b).
Proof.
  assert (Hiff : ∀ f g, cache_valid (fingerprint_dict f) (fingerprint_dict g) = Ok true
                        ↔ fingerprints_match f g).
  { intros f g. rewrite cache_valid_matchb, <- matchb_spec.
    split; [by intros [= ->] | by intros ->]. }
  split_and!.
  - exact Hiff.
  - intros f g p t p' t' Hm. apply Hiff. exact Hm.
  - intros f g Hn. rewrite cache_valid_matchb. f_equal.
    apply not_true_is_false. by rewrite matchb_spec.
  - intros c m. apply try_except_raises.
  - apply cache_valid_total.
Qed.

(** C2, as the code has it: the fingerprint of a run that could stat
    neither file and found no tile identifier column validates against
    the fingerprint an earlier such run saved; so does a fingerprint with
    only one file identity null, and one with only the signature null. *)
Lemma degraded_key_hits :
  cache_valid degraded_key degraded_key = Ok true ∧
  cache_valid (fingerprint_dict unreadable_parcels) (fingerprint_dict unreadable_parcels)
  = Ok true ∧
  cache_valid (fingerprint_dict no_tile_ids) (fingerprint_dict no_tile_ids) = Ok true.
Proof. split_and!; vm_compute; reflexivity. Qed.

(** C2, amended. A current fingerprint with a null file identity (no size,
    no modification time) or a null tile-set signature (no count, no
    hash) is a cache miss against every cached fingerprint that recorded
    the corresponding values; it can only validate against a cached
    fingerprint with the same nulls. *)
Theorem degraded_fingerprint_misses (f g : fingerprint) :
  (degraded_identity (fp_parcels g) ∧ ¬ degraded_identity (fp_parcels f)) ∨
  (degraded_identity (fp_tiles g) ∧ ¬ degraded_identity (fp_tiles f)) ∨
  (degraded_signature (fp_tiles_sig g) ∧ ¬ degraded_signature (fp_tiles_sig f)) →
  cache_valid (fingerprint_dict f) (fingerprint_dict g) = Ok false.
Proof.
  intros Hd. rewrite cache_valid_matchb. f_equal.
  apply not_true_is_false. rewrite matchb_spec.
  intros (_ & _ & Hsig & [Hps Hpm] & [Hts Htm]).
  assert (Hnone : ∀ o, opt_float_eqb o None = true → o = None) by (by intros []).
  destruct Hd as [[[Hs Hm] Hn] | [[[Hs Hm] Hn] | [[Hs Hm] Hn]]]; apply Hn; split.
  - congruence.
  - apply Hnone. by rewrite <- Hm.
  - congruence.
  - apply Hnone. by rewrite <- Hm.
  - by rewrite Hsig.
  - by rewrite Hsig.
Qed.

Lemma degraded_fingerprint_misses_witness :
  cache_valid (fingerprint_dict healthy)
    (make_cache_key stat_fails no_digest "parcels.gpkg" "tiles.gpkg" 50%float None 8
       no_id_column) = Ok false.
Proof.
  rewrite make_cache_key_layout.
  apply (degraded_fingerprint_misses healthy).
  left. split; [done | by intros [? ?]].
Defined.

End CacheValidSpec.

(** ** Rows to adjacency *)

Module Adjacency.
Import Py CacheIO.

Lemma neighbors_add_neighbor x y adj a :
  neighbors (add_neighbor x y adj) a =
  if decide (x = a) then neighbors adj a ∪ {[y]} else neighbors adj a.
Proof.
  unfold neighbors, add_neighbor. rewrite lookup_insert.
  by destruct (decide (x = a)) as [->|].
Qed.

Lemma elem_of_neighbors_add_row adj a b x y :
  y ∈ neighbors (add_row adj (a, b)) x ↔
  y ∈ neighbors adj x ∨ (x = a ∧ y = b) ∨ (x = b ∧ y = a).
Proof.
  unfold add_row. rewrite !neighbors_add_neighbor.
  repeat case_decide; set_solver.
Qed.

Lemma elem_of_neighbors_foldl rows adj x y :
  y ∈ neighbors (foldl add_row adj rows) x ↔
  y ∈ neighbors adj x ∨ (x, y) ∈ rows ∨ (y, x) ∈ rows.
Proof.
  revert adj. induction rows as [|[a b] rows IH]; intros adj.
  - set_solver.
  - change (foldl add_row adj ((a, b) :: rows))
      with (foldl add_row (add_row adj (a, b)) rows).
    rewrite IH, elem_of_neighbors_add_row, !elem_of_cons. naive_solver.
Qed.

Lemma df_to_adjacency_foldl df :
  df_to_adjacency (Some df) = foldl add_row ∅ (tile_columns df).
Proof.
  unfold df_to_adjacency.
  destruct (Nat.eqb_spec (df_len df) 0) as [Hlen|_]; [|done].
  destruct df as [[|??]|[|??]]; done.
Qed.

(** Membership in the graph built from a frame: the pair is a row, in
    either order. *)
Lemma elem_of_df_to_adjacency df x y :
  y ∈ neighbors (df_to_adjacency (Some df)) x ↔
  (x, y) ∈ tile_columns df ∨ (y, x) ∈ tile_columns df.
Proof.
  rewrite df_to_adjacency_foldl, elem_of_neighbors_foldl.
  unfold neighbors at 1. rewrite lookup_empty. set_solver.
Qed.

(** C9, as the code has it: a row whose two endpoints are the same tile
    puts that tile into its own adjacency set. *)
Lemma df_to_adjacency_self_loop :
  "x" ∈ neighbors (df_to_adjacency (Some (AdjFrame [("x", "x")]))) "x".
Proof. apply elem_of_df_to_adjacency. left. simpl. apply list_elem_of_here. Qed.

(** C9, amended. For every row sequence the graph [df_to_adjacency]
    builds is symmetric; a tile is in its own adjacency set only if some
    row has that tile at both ends, so rows with two distinct endpoints
    give a graph without self-loops; a null or empty input gives the empty
    graph. *)
Theorem df_to_adjacency_symmetric :
  (∀ df, symmetric (df_to_adjacency df)) ∧
  (∀ df a, a ∈ neighbors (df_to_adjacency (Some df)) a ↔ (a, a) ∈ tile_columns df) ∧
  (∀ df, (∀ a b, (a, b) ∈ tile_columns df → a ≠ b) →
         loop_free (df_to_adjacency (Some df))) ∧
  df_to_adjacency None = ∅ ∧
  (∀ df, df_len df = 0%nat → df_to_adjacency (Some df) = ∅).
Proof.
  split_and!.
  - intros [df|] a b; [|done].
    rewrite !elem_of_df_to_adjacency. tauto.
  - intros df a. rewrite elem_of_df_to_adjacency. tauto.
  - intros df Hrows a. rewrite elem_of_df_to_adjacency.
    intros [Hin|Hin]; by apply Hrows in Hin.
  - done.
  - intros df Hlen. unfold df_to_adjacency. by rewrite Hlen.
Qed.

End Adjacency.

(** ** Saving and loading the cache *)

Module CacheStore.
Import Py CacheIO PyFacts Adjacency.

Lemma string_length_app (s t : string) :
  String.length (s +:+ t) = (String.length s + String.length t)%nat.
Proof. induction s; simpl; [done | by f_equal]. Qed.

Lemma dir_ne_file dir (rest : string) : dir ≠ dir +:+ "/" +:+ rest.
Proof.
  intros Heq. apply (f_equal String.length) in Heq.
  rewrite string_length_app in Heq. simpl in Heq. lia.
Qed.

Lemma file_ne dir prefix (s t : string) :
  s ≠ t → dir +:+ "/" +:+ prefix +:+ s ≠ dir +:+ "/" +:+ prefix +:+ t.
Proof. intros Hne Heq. by repeat apply (inj (String.app _)) in Heq. Qed.

Lemma mkdir_p_Ok fs d fs' :
  mkdir_p fs d = Ok fs' → fs' !! d = Some Directory ∧ ∀ p, p ≠ d → fs' !! p = fs !! p.
Proof.
  unfold mkdir_p. destruct (fs !! d) as [[|??]|] eqn:Hd; intros [= <-].
  - done.
  - split; [apply lookup_insert_eq | intros p Hp; by apply lookup_insert_ne].
Qed.

Lemma write_file_Ok fs p c fs' :
  write_file fs p c = Ok fs' → fs' = <[p := RegularFile true c]> fs.
Proof. unfold write_file. destruct (fs !! p) as [[|[] ?]|]; by intros [= <-]. Qed.

Lemma save_cache_saved fs adjacency edge_scores meta dir prefix fs' :
  save_cache fs adjacency edge_scores meta dir prefix = Ok fs' →
  saved fs' dir prefix meta (adjacency_rows adjacency) (score_rows edge_scores).
Proof.
  unfold save_cache, cache_paths.
  destruct (mkdir_p fs dir) as [fs0|] eqn:Hmk; [cbn|done].
  apply mkdir_p_Ok in Hmk as [Hdir _].
  destruct (write_file fs0 _ _) as [fs1|] eqn:Hw1; [cbn|done].
  destruct (write_file fs1 _ _) as [fs2|] eqn:Hw2; [cbn|done].
  intros Hw3.
  apply write_file_Ok in Hw1 as ->, Hw2 as ->, Hw3 as ->.
  pose proof (dir_ne_file dir (prefix +:+ "_meta.json")).
  pose proof (dir_ne_file dir (prefix +:+ "_adj.parquet")).
  pose proof (dir_ne_file dir (prefix +:+ "_scores.parquet")).
  pose proof (file_ne dir prefix "_meta.json" "_adj.parquet" ltac:(done)).
  pose proof (file_ne dir prefix "_meta.json" "_scores.parquet" ltac:(done)).
  pose proof (file_ne dir prefix "_adj.parquet" "_scores.parquet" ltac:(done)).
  split; simplify_map_eq; done.
Qed.

Lemma load_cache_saved fs dir prefix meta adj_rows sc_rows :
  saved fs dir prefix meta adj_rows sc_rows →
  load_cache fs dir prefix
  = Ok (fs, (Some meta, Some (AdjFrame adj_rows), Some (ScoresFrame sc_rows))).
Proof.
  intros [Hdir Hmeta Hadj Hsc].
  unfold load_cache, cache_paths, mkdir_p. rewrite Hdir. cbn.
  unfold path_exists, json_load, read_parquet, read_file.
  by rewrite Hmeta, Hadj, Hsc.
Qed.

Lemma write_file_writable fs p c :
  writable fs p → write_file fs p c = Ok (<[p := RegularFile true c]> fs).
Proof. unfold write_file. by intros [->|[? ->]]. Qed.

Lemma save_cache_returns fs adjacency edge_scores meta dir prefix :
  cache_writable fs dir prefix →
  ∃ fs', save_cache fs adjacency edge_scores meta dir prefix = Ok fs'.
Proof.
  intros (Hdir & Hm & Ha & Hs).
  pose proof (dir_ne_file dir (prefix +:+ "_meta.json")).
  pose proof (dir_ne_file dir (prefix +:+ "_adj.parquet")).
  pose proof (dir_ne_file dir (prefix +:+ "_scores.parquet")).
  pose proof (file_ne dir prefix "_meta.json" "_adj.parquet" ltac:(done)).
  pose proof (file_ne dir prefix "_meta.json" "_scores.parquet" ltac:(done)).
  pose proof (file_ne dir prefix "_adj.parquet" "_scores.parquet" ltac:(done)).
  unfold save_cache, cache_paths.
  destruct (mkdir_p fs dir) as [fs0|] eqn:Hmk; cycle 1.
  { unfold mkdir_p in Hmk. by destruct Hdir as [Hd|Hd]; rewrite Hd in Hmk. }
  apply mkdir_p_Ok in Hmk as [_ Hsame]. cbn.
  assert (Hw : ∀ p, p ≠ dir → writable fs p → writable fs0 p).
  { intros p Hp. unfold writable. by rewrite Hsame. }
  rewrite write_file_writable by (apply Hw; [done|exact Hm]). cbn.
  rewrite write_file_writable; cycle 1.
  { unfold writable. rewrite lookup_insert_ne by done. apply Hw; [done|exact Ha]. }
  cbn. rewrite write_file_writable; [eauto|].
  unfold writable. rewrite !lookup_insert_ne by done. apply Hw; [done|exact Hs].
Qed.

Lemma cache_paths_Ok fs dir prefix fs' ps :
  cache_paths fs dir prefix = Ok (fs', ps) →
  mkdir_p fs dir = Ok fs' ∧ mkdir_p fs' dir = Ok fs'.
Proof.
  unfold cache_paths. destruct (mkdir_p fs dir) as [fs0|] eqn:Hmk; [|done].
  intros [= <- <-]. split; [done|].
  apply mkdir_p_Ok in Hmk as [Hd _]. unfold mkdir_p. by rewrite Hd.
Qed.

Lemma attempt_component {A} (read : filesystem → string → res A) fs p o :
  component read fs p o →
  (∀ v, read fs p = Ok v → is_Some (fs !! p)) →
  (if path_exists fs p then Some <$> read fs p else Ok None) = Ok o.
Proof.
  unfold path_exists. intros [[Hp ->]|(v & Hv & ->)] Hex.
  - rewrite bool_decide_eq_false_2; [done|]. rewrite Hp. by intros [? ?].
  - rewrite bool_decide_eq_true_2 by eauto. by rewrite Hv.
Qed.

Lemma attempt_unreadable {A} (read : filesystem → string → res A) fs p :
  unreadable read fs p →
  raises (if path_exists fs p then Some <$> read fs p else Ok None).
Proof.
  unfold path_exists. intros [Hp [e He]].
  rewrite bool_decide_eq_true_2 by done. rewrite He. by exists e.
Qed.

Lemma read_file_is_Some fs p c : read_file fs p = Ok c → is_Some (fs !! p).
Proof. unfold read_file. destruct (fs !! p); [eauto|done]. Qed.

Lemma json_load_is_Some fs p v : json_load fs p = Ok v → is_Some (fs !! p).
Proof.
  unfold json_load. destruct (read_file fs p) eqn:Hr; [|done].
  intros _. by eapply read_file_is_Some.
Qed.

Lemma read_parquet_is_Some fs p v : read_parquet fs p = Ok v → is_Some (fs !! p).
Proof.
  unfold read_parquet. destruct (read_file fs p) eqn:Hr; [|done].
  intros _. by eapply read_file_is_Some.
Qed.


(** Creating the cache directory happens before the [try]: when a file
    stands in its place, [load_cache] raises. *)
Example load_cache_dir_is_a_file :
  load_cache Samples.cache_dir_is_a_file ".cache" "init" = Raise OSError.
Proof. vm_compute. reflexivity. Qed.



End CacheStore.

(** ** Round trip through the cache *)

Module RoundTrip.
Import Py CacheIO PyFacts Adjacency CacheStore.

Lemma ltb_total (a b : string) :
  a ≠ b → String.ltb a b = true ∨ String.ltb b a = true.
Proof.
  intros Hne. unfold String.ltb.
  rewrite (String.compare_antisym b a).
  destruct (String.compare a b) eqn:Hc; simpl; auto.
  by apply String.compare_eq_iff in Hc.
Qed.

Lemma elem_of_adjacency_rows adj a b :
  (a, b) ∈ adjacency_rows adj ↔ b ∈ neighbors adj a ∧ String.ltb a b = true.
Proof.
  unfold adjacency_rows, neighbors. rewrite list_elem_of_bind. split.
  - intros ([a' nbs] & Hin & Hm). apply elem_of_map_to_list in Hm.
    apply list_elem_of_bind in Hin as (b' & Hin & Hb).
    apply elem_of_elements in Hb.
    destruct (String.ltb a' b') eqn:Hlt; [|by apply not_elem_of_nil in Hin].
    apply list_elem_of_singleton in Hin as [= -> ->].
    by rewrite Hm.
  - intros [Hb Hlt]. destruct (adj !! a) as [nbs|] eqn:Hm; [|set_solver].
    exists (a, nbs). split; [|by apply elem_of_map_to_list].
    apply list_elem_of_bind. exists b. rewrite Hlt.
    split; [apply list_elem_of_here | by apply elem_of_elements].
Qed.

(** The edge list written for a symmetric graph without self-loops gives
    the same relation back. *)
Lemma adjacency_round_trip adj :
  symmetric adj → loop_free adj →
  ∀ a, neighbors (df_to_adjacency (Some (AdjFrame (adjacency_rows adj)))) a
       = neighbors adj a.
Proof.
  intros Hsym Hloop a. apply set_eq. intros b.
  rewrite elem_of_df_to_adjacency. simpl. rewrite !elem_of_adjacency_rows.
  split.
  - intros [[Hb _]|[Hb _]]; [done | by apply Hsym].
  - intros Hb. assert (a ≠ b) as Hne by (intros ->; by eapply Hloop).
    destruct (ltb_total a b Hne); [left | right; apply Hsym in Hb]; done.
Qed.

Lemma score_of_carries es v : carries es v → score_of es = v.
Proof. destruct v. by intros [-> | ->]. Qed.

(** Unpacking the sorted elements of a two-element key gives its two
    tile ids. *)
Lemma unpack_sorted_pair (a b : string) :
  a ≠ b →
  ∃ x y, unpack_sorted {[a; b]} = Ok (x, y) ∧
         ((x = a ∧ y = b) ∨ (x = b ∧ y = a)).
Proof.
  intros Hne. unfold unpack_sorted, sorted.
  assert (Hperm : [a; b] ≡ₚ merge_sort String.le (elements ({[a; b]} : gset string))).
  { rewrite merge_sort_Permutation, elements_disj_union by set_solver.
    by rewrite !elements_singleton. }
  apply Permutation.Permutation_length_2_inv in Hperm as [-> | ->]; eauto 10.
Qed.

Lemma string_eqb_empty (a : string) : a ≠ "" → String.eqb a "" = false.
Proof. intros. by apply String.eqb_neq. Qed.

(** An entry under an edge key of two non-empty ids is written as one
    row, and that row is read back under the same key. *)
Lemma add_score_row k es out :
  edge_key k → "" ∉ k →
  foldl add_score out (score_columns (ScoresFrame (score_row_of (k, es))))
  = <[k := score_of es]> out.
Proof.
  intros (a & b & Hne & ->) Hempty. cbn.
  destruct (unpack_sorted_pair a b Hne) as (x & y & -> & Hxy).
  unfold score_of. destruct (score_fields es) as [[r o] s]. cbn.
  assert (x ≠ "" ∧ y ≠ "" ∧ ({[x; y]} : gset string) = {[a; b]}) as (Hx & Hy & ->).
  { destruct Hxy as [[-> ->]|[-> ->]]; set_solver. }
  by rewrite !string_eqb_empty.
Qed.

Lemma foldl_insert_list_to_map {V} (l : list (gset string * V)) :
  NoDup l.*1 →
  foldl (λ m kv, <[kv.1 := kv.2]> m) (∅ : gmap (gset string) V) l = list_to_map l.
Proof.
  induction l as [|[k v] l IH] using rev_ind; [done|].
  rewrite fmap_app, NoDup_app. intros (Hl & Hk & _).
  rewrite foldl_snoc, IH by done. simpl.
  rewrite list_to_map_snoc; [done|].
  intros Hin. apply (Hk _ Hin). simpl. apply list_elem_of_here.
Qed.

(** The score table written for edge keys of non-empty ids is read back
    with the same keys and the values that were written. *)
Lemma scores_round_trip (edge_scores : gmap (gset string) score_obj) :
  (∀ k, is_Some (edge_scores !! k) → edge_key k ∧ "" ∉ k) →
  df_to_edge_scores (Some (ScoresFrame (score_rows edge_scores)))
  = score_of <$> edge_scores.
Proof.
  intros Hkeys.
  assert (Hfold : ∀ df, df_to_edge_scores (Some df) = foldl add_score ∅ (score_columns df)).
  { intros df. unfold df_to_edge_scores.
    destruct (Nat.eqb_spec (df_len df) 0) as [Hlen|_]; [|done].
    destruct df as [[|??]|[|??]]; done. }
  rewrite Hfold.
  rewrite <- (list_to_map_to_list edge_scores) at 2.
  rewrite <- list_to_map_fmap.
  rewrite <- foldl_insert_list_to_map; cycle 1.
  { rewrite <- list_fmap_compose.
    erewrite (list_fmap_ext _ fst); [apply NoDup_fst_map_to_list|by intros ? []]. }
  rewrite foldl_fmap.
  assert (Hl : ∀ k es, (k, es) ∈ map_to_list edge_scores → edge_key k ∧ "" ∉ k).
  { intros k es Hin. apply Hkeys. apply elem_of_map_to_list in Hin. eauto. }
  clear Hkeys.
  unfold score_rows. generalize (∅ : gmap (gset string) edge_score).
  induction (map_to_list edge_scores) as [|[k es] l IH]; intros out; [done|].
  rewrite bind_cons. cbn [score_columns]. rewrite fmap_app, foldl_app.
  destruct (Hl k es (list_elem_of_here _ _)) as [Hk He].
  pose proof (add_score_row k es out Hk He) as Hrow. cbn [score_columns] in Hrow.
  rewrite Hrow. cbn [foldl]. apply IH.
  intros k' es' Hin. apply (Hl k' es'). by apply list_elem_of_further.
Qed.

(** C3, as the code has it: the score of an edge one of whose tiles has
    the empty string as its id is written by [save_cache] and skipped by
    [df_to_edge_scores]; the table read back is empty. *)
Lemma round_trip_drops_empty_id :
  edge_key {[ ""; "x" ]} ∧
  snd <$> round_trip ∅ Samples.unnamed_tile Samples.unnamed_tile_scores PNone ".cache" "init"
  = Ok ∅.
Proof.
  split; [by exists "", "x"|].
  vm_compute. reflexivity.
Qed.

(** C3, amended. For a symmetric adjacency mapping without self-loops
    and an edge-score table keyed by two-element sets of distinct,
    non-empty tile ids: once [save_cache] has returned, loading and
    converting the loaded rows back with [df_to_adjacency] and
    [df_to_edge_scores] returns the original adjacency relation and,
    under every original key and under no other, the original
    [(r2, n_obs, n_sales)], whichever way round the two ids of a key were
    inserted. *)
Theorem cache_round_trip fs adjacency edge_scores meta dir prefix :
  symmetric adjacency → loop_free adjacency →
  (∀ k, is_Some (edge_scores !! k) → edge_key k ∧ "" ∉ k) →
  (∃ fs', save_cache fs adjacency edge_scores meta dir prefix = Ok fs') →
  ∃ adj' scores',
    round_trip fs adjacency edge_scores meta dir prefix = Ok (adj', scores') ∧
    (∀ a, neighbors adj' a = neighbors adjacency a) ∧
    (∀ k es v, edge_scores !! k = Some es → carries es v → scores' !! k = Some v) ∧
    (∀ k, edge_scores !! k = None → scores' !! k = None).
Proof.
  intros Hsym Hloop Hkeys [fs' Hs].
  exists (df_to_adjacency (Some (AdjFrame (adjacency_rows adjacency)))),
    (df_to_edge_scores (Some (ScoresFrame (score_rows edge_scores)))).
  split.
  { unfold round_trip. rewrite Hs. cbn [mbind res_bind].
    by rewrite (load_cache_saved _ _ _ _ _ _ (save_cache_saved _ _ _ _ _ _ _ Hs)). }
  rewrite scores_round_trip by done.
  split_and!.
  - by apply adjacency_round_trip.
  - intros k es v Hk Hv. by rewrite lookup_fmap, Hk, <- (score_of_carries es v Hv).
  - intros k Hk. by rewrite lookup_fmap, Hk.
Qed.

Lemma two_tiles_neighbors a :
  neighbors Samples.two_tiles a =
  if decide (a = "t1") then {[ "t2" ]} else if decide (a = "t2") then {[ "t1" ]} else ∅.
Proof.
  unfold neighbors, Samples.two_tiles.
  repeat case_decide; by simplify_map_eq.
Qed.

Lemma cache_round_trip_witness :
  ∃ adj' scores',
    round_trip ∅ Samples.two_tiles Samples.two_tiles_scores PNone ".cache" "init"
    = Ok (adj', scores') ∧
    neighbors adj' "t1" = {[ "t2" ]} ∧
    scores' !! {[ "t1"; "t2" ]} = Some {| r2 := 0.5; n_obs := 4; n_sales := 3 |}.
Proof.
  destruct (cache_round_trip ∅ Samples.two_tiles Samples.two_tiles_scores PNone
              ".cache" "init") as (adj' & scores' & Hrt & Hadj & Hsc & _).
  - intros a b. rewrite !two_tiles_neighbors. repeat case_decide; set_solver.
  - intros a. rewrite two_tiles_neighbors. repeat case_decide; set_solver.
  - unfold Samples.two_tiles_scores. intros k [es Hk].
    apply lookup_singleton_Some in Hk as [<- _].
    split; [by exists "t2", "t1" | set_solver].
  - apply save_cache_returns.
    unfold cache_writable, writable. rewrite !lookup_empty. auto.
  - exists adj', scores'. split_and!; [done|by rewrite Hadj|].
    apply (Hsc _ (ScoreDict (Some 0.5%float) (Some 4) (Some 3))); [|by right].
    unfold Samples.two_tiles_scores.
    replace ({[ "t1"; "t2" ]} : gset string) with ({[ "t2"; "t1" ]} : gset string)
      by set_solver.
    apply lookup_singleton_eq.
Defined.

End RoundTrip.

(** ** IEEE comparisons and the clamp *)

Module FloatFacts.
Import Np.

Lemma SFcompare_antisym x y :
  SFcompare y x = option_map CompOpp (SFcompare x y).
Proof.
  destruct x as [sx|sx| |sx mx ex], y as [sy|sy| |sy my ey]; simpl;
    try done; try (by destruct sx); try (by destruct sy); try (by destruct sx, sy).
  f_equal. destruct sx, sy; simpl; try done;
    rewrite (Z.compare_antisym ex ey); destruct (ex ?= ey)%Z; simpl; try done.
  - rewrite <- (Pos.compare_cont_antisym _ _ Eq). simpl. by rewrite CompOpp_involutive.
  - by rewrite <- (Pos.compare_cont_antisym _ _ Eq).
Qed.

Lemma not_nan_spec x : is_nan x = false → Prim2SF x ≠ S754_nan.
Proof.
  unfold is_nan. rewrite FloatAxioms.eqb_spec. intros H Hn. by rewrite Hn in H.
Qed.

Lemma SFcompare_is_Some x y :
  x ≠ S754_nan → y ≠ S754_nan → ∃ c, SFcompare x y = Some c.
Proof. destruct x, y; simpl; eauto; done. Qed.

(** On numbers the order is total: not [x < y] gives [y <= x]. *)
Lemma ltb_false_leb x y :
  is_nan x = false → is_nan y = false →
  (x <? y)%float = false → (y <=? x)%float = true.
Proof.
  intros Hx%not_nan_spec Hy%not_nan_spec.
  rewrite FloatAxioms.ltb_spec, FloatAxioms.leb_spec.
  unfold SFltb, SFleb. rewrite (SFcompare_antisym (Prim2SF x) (Prim2SF y)).
  destruct (SFcompare_is_Some _ _ Hx Hy) as [c ->]. by destruct c.
Qed.

Lemma is_finite_not_nan x : is_finite x = true → is_nan x = false.
Proof. unfold is_finite. by destruct (is_nan x). Qed.

Lemma eqb_zero_not_pos a : (a =? 0)%float = true → (0 <? a)%float = false.
Proof.
  rewrite FloatAxioms.eqb_spec, FloatAxioms.ltb_spec. unfold SFeqb, SFltb.
  rewrite (SFcompare_antisym (Prim2SF a) (Prim2SF 0)).
  by destruct (SFcompare (Prim2SF a) (Prim2SF 0)) as [[]|].
Qed.

Lemma eqb_leb a b : (a =? b)%float = true → (a <=? b)%float = true.
Proof.
  rewrite FloatAxioms.eqb_spec, FloatAxioms.leb_spec. unfold SFeqb, SFleb.
  by destruct (SFcompare (Prim2SF a) (Prim2SF b)) as [[]|].
Qed.

Lemma clamp_zero : clamp 0 = 0%float.
Proof. reflexivity. Qed.

(** The clamp of a number lies between -1 and 1. *)
Lemma clamp_bounds r :
  is_nan r = false →
  (-1 <=? clamp r)%float = true ∧ (clamp r <=? 1)%float = true.
Proof.
  intros Hr. unfold clamp, py_min, py_max.
  destruct (1 <? r)%float eqn:H1.
  - by vm_compute.
  - destruct (r <? -1)%float eqn:H2.
    + by vm_compute.
    + split; by apply ltb_false_leb.
Qed.

End FloatFacts.

(** ** The R² of the fit *)

Module Regression.
Import Py Np Utilities MpHelpers FloatFacts.

Section fit.
Context `{Engine}.

(** The value the clamp is applied to in the worker is a number. *)
Lemma inline_r2_bounds y X :
  (-1 <=? inline_r2 y X)%float = true ∧ (inline_r2 y X <=? 1)%float = true.
Proof.
  unfold inline_r2. apply clamp_bounds.
  destruct (inline_r2_try y X) as [r|e]; [|done].
  destruct (is_finite r) eqn:Hf; simpl; [by apply is_finite_not_nan | done].
Qed.

Lemma inline_r2_raises y X : raises (inline_r2_try y X) → inline_r2 y X = 0%float.
Proof. unfold inline_r2. by intros [e ->]. Qed.

Lemma inline_r2_not_finite y X r :
  inline_r2_try y X = Ok r → is_finite r = false → inline_r2 y X = 0%float.
Proof. unfold inline_r2. by intros -> ->. Qed.

Lemma inline_r2_degenerate y X beta :
  lstsq (column_stack_ones X) y = Ok beta →
  (ss_tot_of y <=? 0)%float = true →
  inline_r2 y X = 0%float.
Proof. unfold inline_r2, inline_r2_try. by intros -> ->. Qed.

Lemma inline_r2_solved y X beta :
  lstsq (column_stack_ones X) y = Ok beta →
  inline_r2 y X =
    if (ss_tot_of y <=? 0)%float then 0%float
    else
      let r2 := (1 - ss_res_of y (dot (column_stack_ones X) beta) / ss_tot_of y)%float in
      if is_finite r2 then clamp r2 else 0%float.
Proof.
  intros Hb. unfold inline_r2, inline_r2_try, py_truediv. rewrite Hb. cbn.
  destruct (ss_tot_of y <=? 0)%float eqn:Hle; [done|].
  destruct (ss_tot_of y =? 0)%float eqn:Heq.
  { apply eqb_leb in Heq. congruence. }
  cbn. by destruct (is_finite _).
Qed.

(** C10. Wherever the least-squares solve returns, [ols_r2] returns
    the very value the worker computes inline for the same target and
    design matrix: the same intercept column, 0.0 for a total sum of
    squares at or below zero and for a non-finite R², and the same
    clamp to [-1.0, 1.0]. *)
Theorem ols_r2_inline_r2 (y : vector) (X : matrix) :
  (∃ beta, lstsq (column_stack_ones X) y = Ok beta) →
  ols_r2 y X = Ok (inline_r2 y X).
Proof.
  intros [beta Hb]. rewrite (inline_r2_solved y X beta Hb).
  unfold ols_r2. rewrite Hb. cbn zeta.
  destruct (ss_tot_of y <=? 0)%float; [done|].
  by destruct (is_finite _).
Qed.

(** A singular system ([LinAlgError]) gives 0.0 on both sides as well. *)
Lemma ols_r2_inline_r2_singular (y : vector) (X : matrix) :
  lstsq (column_stack_ones X) y = Raise LinAlgError →
  ols_r2 y X = Ok (inline_r2 y X).
Proof.
  intros Hb. unfold ols_r2, inline_r2, inline_r2_try. by rewrite Hb.
Qed.

End fit.

End Regression.

(** ** The pool workers *)

Module Workers.
Import Py Np MpHelpers PyFacts FloatFacts Regression.

Lemma py_index_in_range {A} (l : list A) (i : Z) :
  ¬ out_of_range l i → ∃ x, py_index l i = Ok x.
Proof.
  unfold out_of_range, py_index. intros Hi.
  destruct (Z.ltb_spec i 0).
  - rewrite (proj2 (Z.leb_le _ _)), (proj2 (Z.ltb_lt _ _)) by lia. simpl.
    destruct (lookup_lt_is_Some_2 l (Z.to_nat (i + Z.of_nat (length l)))) as [x ->];
      [lia | eauto].
  - rewrite (proj2 (Z.leb_le _ _)), (proj2 (Z.ltb_lt _ _)) by lia. simpl.
    destruct (lookup_lt_is_Some_2 l (Z.to_nat i)) as [x ->]; [lia | eauto].
Qed.

Lemma py_index_out_of_range {A} (l : list A) (i : Z) :
  out_of_range l i → py_index l i = Raise IndexError.
Proof.
  unfold out_of_range. intros Hi. unfold py_index.
  match goal with |- context [?c1 && ?c2] => destruct (c1 && c2) eqn:Hc end; [|done].
  apply andb_true_iff in Hc as [H1%Z.leb_le H2%Z.ltb_lt].
  destruct (Z.ltb_spec i 0); lia.
Qed.

Section adjacency_worker.
Context {geom : Type}.
Variable intersection : geom → geom → res geom.
Variable area : geom → res float.

Abbreviation worker := (_pair_overlaps_area intersection area).
Abbreviation body := (pair_overlaps_area_body intersection area).

Lemma pair_overlaps_area_pair g i j :
  body g [i; j] =
    (geoms ← the TypeError (_BUFFERED_GEOMS g);
     gi ← py_index geoms i;
     gj ← py_index geoms j;
     inter ← intersection gi gj;
     a ← getattr_area area inter;
     if (0 <? a)%float then Ok (Some (i, j)) else Ok None).
Proof. reflexivity. Qed.


End adjacency_worker.

Lemma take_rows_length {A} (l : list A) idxs rows :
  take_rows l idxs = Ok rows → length rows = length idxs.
Proof.
  revert rows. induction idxs as [|i idxs IH]; intros rows; simpl.
  - by intros [= <-].
  - destruct (py_index l i); [cbn|done].
    destruct (take_rows l idxs) as [xs|]; [cbn|done].
    intros [= <-]. simpl. f_equal. by apply IH.
Qed.

Section scoring_worker.
Context {geom : Type} `{Engine}.
Implicit Types (g : @globals geom) (sub : parcels_table).

Lemma gathered_empty g a b :
  (length (elements (gathered g a b)) =? 0)%nat = true ↔ gathered g a b = ∅.
Proof.
  rewrite Nat.eqb_eq, length_zero_iff_nil, elements_empty_iff.
  by unfold_leibniz.
Qed.

Lemma body_empty g a b :
  gathered g a b = ∅ → score_edge_pair_body g [a; b] = Ok (a, b, 0%float, 0, 0).
Proof.
  intros He. apply gathered_empty in He.
  unfold score_edge_pair_body. cbn. by rewrite He.
Qed.

Lemma body_gathered g a b :
  gathered g a b ≠ ∅ →
  score_edge_pair_body g [a; b] = score_gathered a b <$> gather g a b.
Proof.
  intros Hne. unfold score_edge_pair_body, gather. cbn.
  destruct (length (elements (gathered g a b)) =? 0)%nat eqn:He.
  { by apply gathered_empty in He. }
  destruct (the AttributeError (_PARCELS_MIN_DF g)) as [parcels|]; [cbn|done].
  by destruct (iloc parcels _) as [sub|].
Qed.

Lemma worker_gathered g a b sub :
  gathered g a b ≠ ∅ → gather g a b = Ok sub →
  _score_edge_pair_worker g [a; b] = Ok (score_gathered a b sub).
Proof.
  intros Hne Hsub. unfold _score_edge_pair_worker.
  by rewrite body_gathered, Hsub.
Qed.

Lemma score_gathered_low a b sub :
  n_sales_of sub < 3 ∨ has_regression_columns sub = false
  ∨ Z.of_nat (length (dropna sub)) < 3 →
  score_gathered a b sub
  = (a, b, 0%float, Z.of_nat (length (parcel_rows sub)), n_sales_of sub).
Proof.
  intros Hlow. unfold score_gathered.
  destruct (n_sales_of sub <? 3) eqn:Hs; [done|].
  destruct (has_regression_columns sub) eqn:Hc; [cbn|done].
  destruct (Z.of_nat (length (dropna sub)) <? 3) eqn:Hn; [done|].
  apply Z.ltb_ge in Hs, Hn. destruct Hlow as [?|[?|?]]; [lia|done|lia].
Qed.

Lemma score_gathered_fit a b sub :
  3 ≤ n_sales_of sub → has_regression_columns sub = true →
  3 ≤ Z.of_nat (length (dropna sub)) →
  score_gathered a b sub
  = (a, b, inline_r2 (target (dropna sub)) (design (dropna sub)),
     Z.of_nat (length (dropna sub)), n_sales_of sub).
Proof.
  intros Hs Hc Hn. unfold score_gathered.
  by rewrite (proj2 (Z.ltb_ge _ _) Hs), (proj2 (Z.ltb_ge _ _) Hn), Hc.
Qed.

Lemma gather_length g a b sub :
  gather g a b = Ok sub → length (parcel_rows sub) = size (gathered g a b).
Proof.
  unfold gather, iloc.
  destruct (the AttributeError (_PARCELS_MIN_DF g)) as [parcels|]; [cbn|done].
  destruct (take_rows _ _) as [rows|] eqn:Hrows; [cbn|done].
  intros [= <-]. simpl. by apply take_rows_length in Hrows.
Qed.

Lemma score_gathered_bounds a b sub :
  (-1 <=? (score_gathered a b sub).1.1.2)%float = true ∧
  ((score_gathered a b sub).1.1.2 <=? 1)%float = true.
Proof.
  unfold score_gathered.
  destruct (n_sales_of sub <? 3); [by vm_compute|].
  destruct (negb _); [by vm_compute|].
  destruct (_ <? 3); [by vm_compute|apply inline_r2_bounds].
Qed.


(** C6. The scoring worker never raises, and the r2 it returns lies in
    [-1.0, 1.0]. The r2 is exactly 0.0 when fewer than 3 sale prices are
    present or a regression column is missing, when the total sum of
    squares is at or below zero, when the R² of the fit is not finite,
    and when the solver raises. A failure anywhere in the computation
    gives [(a, b, 0.0, 0, 0)] with the ids of the pair, or with two
    empty strings when the pair does not unpack. *)
Theorem score_edge_pair_worker_safe g :
  (∀ pair, ∃ a b r o s,
     _score_edge_pair_worker g pair = Ok (a, b, r, o, s) ∧
     (-1 <=? r)%float = true ∧ (r <=? 1)%float = true) ∧
  (∀ a b sub, gathered g a b ≠ ∅ → gather g a b = Ok sub →
     n_sales_of sub < 3 ∨ has_regression_columns sub = false →
     ∃ o s, _score_edge_pair_worker g [a; b] = Ok (a, b, 0%float, o, s)) ∧
  (∀ a b sub, fitted g a b sub →
     let y := target (dropna sub) in
     let X := design (dropna sub) in
     (∃ beta, lstsq (column_stack_ones X) y = Ok beta ∧
              (ss_tot_of y <=? 0)%float = true) ∨
     (∃ r, inline_r2_try y X = Ok r ∧ is_finite r = false) ∨
     raises (inline_r2_try y X) →
     _score_edge_pair_worker g [a; b]
     = Ok (a, b, 0%float, Z.of_nat (length (dropna sub)), n_sales_of sub)) ∧
  (∀ a b, raises (score_edge_pair_body g [a; b]) →
     _score_edge_pair_worker g [a; b] = Ok (a, b, 0%float, 0, 0)) ∧
  (∀ pair, raises (unpack2 pair) →
     _score_edge_pair_worker g pair = Ok ("", "", 0%float, 0, 0)).
Proof.
  split_and!.
  - intros pair. unfold _score_edge_pair_worker.
    destruct (score_edge_pair_body g pair) as [[[[[a b] r] o] s]|e] eqn:Hbody; cbn.
    + exists a, b, r, o, s. split; [done|].
      destruct pair as [|a' [|b' [|??]]]; try done.
      destruct (decide (gathered g a' b' = ∅)) as [He|Hne].
      * rewrite body_empty in Hbody by done. injection Hbody as <- <- <- <- <-.
        by vm_compute.
      * rewrite body_gathered in Hbody by done.
        destruct (gather g a' b') as [sub|]; [|done].
        injection Hbody as Hbody.
        pose proof (score_gathered_bounds a' b' sub) as Hb. by rewrite Hbody in Hb.
    + destruct (unpack2 pair) as [[a b]|]; [exists a, b | exists "", ""];
        by exists 0%float, 0, 0.
  - intros a b sub Hne Hsub Hlow.
    rewrite (worker_gathered g a b sub Hne Hsub), score_gathered_low; [by eauto|].
    destruct Hlow; auto.
  - intros a b sub (Hne & Hsub & Hs & Hc & Hn) y X Hzero.
    rewrite (worker_gathered g a b sub Hne Hsub), score_gathered_fit by done.
    do 5 f_equal. fold y X.
    destruct Hzero as [(beta & Hb & Hz)|[(r & Hr & Hf)|Hr]].
    + by eapply inline_r2_degenerate.
    + by eapply inline_r2_not_finite.
    + by apply inline_r2_raises.
  - intros a b Hr. unfold _score_edge_pair_worker.
    by rewrite (try_except_raises _ (a, b, 0%float, 0, 0)).
  - intros pair [e He]. unfold _score_edge_pair_worker, score_edge_pair_body.
    by rewrite He.
Qed.

End scoring_worker.

End Workers.

(** ** Order independence of a batch *)

Module Determinism.
Import Py Np CacheIO MpHelpers Fabric PyFacts Workers.

Lemma map_items_total {A B} (f : A → res B) (f' : A → B) items :
  (∀ x, f x = Ok (f' x)) → map_items f items = Ok (f' <$> items).
Proof.
  intros Hf. induction items as [|x items IH]; simpl; [done|].
  by rewrite Hf, IH.
Qed.

Lemma elem_of_collect_pairs_acc results acc p :
  p ∈ foldl add_pair acc results ↔ p ∈ acc ∨ Some p ∈ results.
Proof.
  revert acc. induction results as [|[q|] results IH]; intros acc; simpl.
  - rewrite elem_of_nil. tauto.
  - rewrite IH, elem_of_cons. set_solver.
  - rewrite IH, elem_of_cons. naive_solver.
Qed.

Lemma elem_of_collect_pairs results p :
  p ∈ collect_pairs results ↔ Some p ∈ results.
Proof. unfold collect_pairs. rewrite elem_of_collect_pairs_acc. set_solver. Qed.

Lemma collect_pairs_perm rs rs' : rs ≡ₚ rs' → collect_pairs rs = collect_pairs rs'.
Proof.
  intros Hp. apply set_eq. intros p. rewrite !elem_of_collect_pairs. by rewrite Hp.
Qed.

Lemma collect_scores_snoc rs r :
  collect_scores (rs ++ [r]) = <[edge_key_of r := edge_score_of r]> (collect_scores rs).
Proof. unfold collect_scores. by rewrite foldl_snoc. Qed.

Lemma collect_scores_lookup rs k v :
  coherent rs →
  collect_scores rs !! k = Some v ↔
  ∃ r, r ∈ rs ∧ edge_key_of r = k ∧ edge_score_of r = v.
Proof.
  induction rs as [|r rs IH] using rev_ind; intros Hc.
  - unfold collect_scores. simpl. rewrite lookup_empty. split; [done|].
    intros (r & Hr & _). by apply elem_of_nil in Hr.
  - assert (coherent rs) as Hc'.
    { intros r1 r2 H1 H2. apply Hc; apply elem_of_app; by left. }
    rewrite collect_scores_snoc.
    destruct (decide (edge_key_of r = k)) as [Hk|Hk].
    + rewrite Hk, lookup_insert_eq. split.
      * intros [= <-]. exists r. split; [|done]. apply elem_of_app. right. apply list_elem_of_here.
      * intros (r0 & Hr0 & Hk0 & <-). f_equal.
        apply Hc; [apply elem_of_app; right; apply list_elem_of_here|done|congruence].
    + rewrite lookup_insert_ne, (IH Hc') by done. split.
      * intros (r0 & Hr0 & ?). exists r0. split; [|done]. apply elem_of_app. by left.
      * intros (r0 & Hr0 & Hk0 & Hv0). exists r0. split; [|done].
        apply elem_of_app in Hr0 as [?|Hr0]; [done|].
        apply list_elem_of_singleton in Hr0 as ->. done.
Qed.

Lemma collect_scores_perm rs rs' :
  coherent rs → rs ≡ₚ rs' → collect_scores rs = collect_scores rs'.
Proof.
  intros Hc Hp.
  assert (coherent rs') as Hc'.
  { intros r1 r2 H1 H2. apply Hc; by rewrite Hp. }
  apply map_eq. intros k. apply option_eq. intros v.
  rewrite !collect_scores_lookup by done. by setoid_rewrite Hp.
Qed.

Lemma pair_set_eq (a b c d : string) :
  ({[a; b]} : gset string) = {[c; d]} → (a = c ∧ b = d) ∨ (a = d ∧ b = c).
Proof.
  intros Heq.
  assert (a ∈ ({[c; d]} : gset string)) as Ha by (rewrite <- Heq; set_solver).
  assert (b ∈ ({[c; d]} : gset string)) as Hb by (rewrite <- Heq; set_solver).
  assert (c ∈ ({[a; b]} : gset string)) as Hc by (rewrite Heq; set_solver).
  assert (d ∈ ({[a; b]} : gset string)) as Hd by (rewrite Heq; set_solver).
  clear Heq. rewrite elem_of_union, !elem_of_singleton in Ha, Hb, Hc, Hd.
  naive_solver.
Qed.

Section batch.
Context {geom : Type}.
Variable intersection : geom → geom → res geom.
Variable area : geom → res float.
Context `{Engine}.
Variable g : @globals geom.

Abbreviation scoring_result := (scoring_result g).
Abbreviation adjacency_result := (adjacency_result intersection area g).

Lemma scoring_worker_total item :
  on_pair (_score_edge_pair_worker g) item = Ok (scoring_result item).
Proof.
  unfold Fabric.scoring_result, on_pair, _score_edge_pair_worker.
  by destruct (score_edge_pair_body _ _).
Qed.

Lemma adjacency_worker_total item :
  on_pair (_pair_overlaps_area intersection area g) item = Ok (adjacency_result item).
Proof.
  unfold Fabric.adjacency_result, on_pair, _pair_overlaps_area.
  by destruct (pair_overlaps_area_body _ _ _ _).
Qed.

Lemma gathered_comm a b : gathered g a b = gathered g b a.
Proof. unfold gathered. apply (comm_L (∪)). Qed.

(** The result for [(a, b)]: the two ids, and a score that is the same
    for [(b, a)]. *)
Lemma scoring_result_key a b : edge_key_of (scoring_result (a, b)) = {[a; b]}.
Proof.
  unfold Fabric.scoring_result, on_pair, _score_edge_pair_worker. simpl.
  destruct (decide (gathered g a b = ∅)) as [He|Hne].
  - by rewrite body_empty.
  - rewrite body_gathered by done.
    destruct (gather g a b) as [sub|]; [|done]. cbn. unfold score_gathered.
    by repeat case_match.
Qed.

Lemma scoring_result_swap a b :
  edge_score_of (scoring_result (a, b)) = edge_score_of (scoring_result (b, a)).
Proof.
  unfold Fabric.scoring_result, on_pair, _score_edge_pair_worker. simpl.
  destruct (decide (gathered g a b = ∅)) as [He|Hne].
  - assert (gathered g b a = ∅) as He' by (by rewrite gathered_comm).
    by rewrite !body_empty.
  - assert (gathered g b a ≠ ∅) as Hne' by (by rewrite gathered_comm).
    rewrite !body_gathered by done.
    unfold gather. rewrite (gathered_comm b a).
    destruct (parcels ← the AttributeError (_PARCELS_MIN_DF g);
              iloc parcels (elements (gathered g a b))) as [sub|]; [|done].
    cbn. unfold score_gathered. by repeat case_match.
Qed.

Lemma scoring_results_coherent (work : list (string * string)) :
  coherent (scoring_result <$> work).
Proof.
  intros r r' Hr Hr'.
  apply list_elem_of_fmap in Hr as ([a b] & -> & _).
  apply list_elem_of_fmap in Hr' as ([c d] & -> & _).
  rewrite !scoring_result_key. intros [[-> ->]|[-> ->]]%pair_set_eq; [done|].
  apply scoring_result_swap.
Qed.


End batch.

End Determinism.

(** ** The scenarios of the specification, run on the sample payload *)

Module Scenarios.
Import Py Np Utilities MpHelpers Fabric Samples Regression Workers Determinism.

(** Two squares overlapping in a 1 by 1 area are adjacent. *)
Example overlap_one_by_one :
  _pair_overlaps_area rect_intersection rect_area payload [0; 1] = Ok (Some (0, 1)).
Proof. vm_compute. reflexivity. Qed.

(** Two squares sharing only a boundary line are not. *)
Example boundary_only :
  _pair_overlaps_area rect_intersection rect_area payload [1; 2] = Ok None.
Proof. vm_compute. reflexivity. Qed.

Example index_out_of_range :
  _pair_overlaps_area rect_intersection rect_area payload [1; 3] = Ok None.
Proof. vm_compute. reflexivity. Qed.

Example globals_not_initialised :
  _pair_overlaps_area rect_intersection rect_area initial_globals [0; 1] = Ok None.
Proof. vm_compute. reflexivity. Qed.

(** Five gathered parcels, four complete rows, four sale prices: the
    fit is run on the four. *)
Example four_complete_rows :
  @gather rect payload "t1" "t2" ≫= (λ sub, Ok (length (parcel_rows sub))) = Ok 5%nat ∧
  ∃ r, @_score_edge_pair_worker rect left_to_right payload ["t1"; "t2"]
       = Ok ("t1", "t2", r, 4, 4).
Proof. split; [|eexists]; vm_compute; reflexivity. Qed.

(** Two parcels with a sale price: no fit, whatever the engine. *)
Example two_sales `{Engine} :
  @_score_edge_pair_worker rect _ payload ["t1"; "t4"] = Ok ("t1", "t4", 0%float, 2, 2).
Proof. vm_compute. reflexivity. Qed.

Example no_parcels `{Engine} :
  @_score_edge_pair_worker rect _ payload ["t8"; "t9"] = Ok ("t8", "t9", 0%float, 0, 0).
Proof. vm_compute. reflexivity. Qed.

Example pair_does_not_unpack `{Engine} :
  @_score_edge_pair_worker rect _ payload ["t1"] = Ok ("", "", 0%float, 0, 0).
Proof. vm_compute. reflexivity. Qed.

Lemma ols_r2_inline_r2_witness :
  @ols_r2 left_to_right [1; 2; 3; 5]%float [[0; 0]; [0; 0]; [0; 0]; [0; 0]]%float
  = Ok (@inline_r2 left_to_right [1; 2; 3; 5]%float [[0; 0]; [0; 0]; [0; 0]; [0; 0]]%float).
Proof.
  apply (@ols_r2_inline_r2 left_to_right).
  eexists. vm_compute. reflexivity.
Defined.


End Scenarios.

(** * Further properties of the code *)

(** ** [ols_r2] and [compute_market_value_proxy] *)

Module UtilitiesFacts.
Import Py Np Utilities MpHelpers MarketValue FloatFacts Regression.

Section ols.
Context `{Engine}.

Lemma ols_r2_solved y X beta :
  lstsq (column_stack_ones X) y = Ok beta → ols_r2 y X = Ok (inline_r2 y X).
Proof.
  intros Hb. rewrite (inline_r2_solved y X beta Hb).
  unfold ols_r2. rewrite Hb. cbn zeta.
  destruct (ss_tot_of y <=? 0)%float; [done|].
  by destruct (is_finite _).
Qed.

(** What [ols_r2] can do: a value it returns lies in [-1.0, 1.0], and it
    raises exactly the exceptions of the solver other than
    [LinAlgError]. *)
Theorem ols_r2_outcomes (y : vector) (X : matrix) :
  (∀ r, ols_r2 y X = Ok r → (-1 <=? r)%float = true ∧ (r <=? 1)%float = true) ∧
  (∀ e, ols_r2 y X = Raise e ↔
        lstsq (column_stack_ones X) y = Raise e ∧ e ≠ LinAlgError).
Proof.
  split.
  - intros r Hr.
    destruct (lstsq (column_stack_ones X) y) as [beta|e] eqn:Hb.
    + rewrite (ols_r2_solved y X beta Hb) in Hr. injection Hr as <-.
      apply inline_r2_bounds.
    + unfold ols_r2 in Hr. rewrite Hb in Hr.
      destruct e; try done. injection Hr as <-. by vm_compute.
  - intros e. destruct (lstsq (column_stack_ones X) y) as [beta|e'] eqn:Hb.
    + rewrite (ols_r2_solved y X beta Hb). split; [done|by intros [? _]].
    + unfold ols_r2. rewrite Hb. destruct e'; split;
        try (intros [= <-]; by split); try done; intros [[= <-] Hne]; done.
Qed.

(** [ols_r2] and the worker's inline computation part ways only when
    the solver raises something other than [LinAlgError]: the worker's
    inner [try] turns that into 0.0, [ols_r2] lets it through. *)
Theorem ols_r2_agrees_with_worker_iff (y : vector) (X : matrix) :
  ols_r2 y X = Ok (inline_r2 y X) ↔
  ∀ e, lstsq (column_stack_ones X) y = Raise e → e = LinAlgError.
Proof.
  destruct (lstsq (column_stack_ones X) y) as [beta|e] eqn:Hb.
  - rewrite (ols_r2_solved y X beta Hb). split; [by intros _ e|done].
  - assert (e = LinAlgError ∨ e ≠ LinAlgError) as [->|Hne]
      by (destruct e; auto; by right).
    + rewrite (ols_r2_inline_r2_singular y X Hb). split; [by intros _ e [= <-]|done].
    + split.
      * unfold ols_r2. rewrite Hb. by destruct e.
      * intros He. by destruct Hne; apply He.
Qed.

End ols.

Lemma mask_assign_rowwise (rows : list valued) :
  mask_assign
    (mask_assign (assessed_value <$> rows)
       (zip_with (λ s a, negb (is_nan s) && negb (is_nan a))
          (sale_value <$> rows) (assessed_value <$> rows))
       (zip_with (λ s a, ((s + a) / 2)%float)
          (sale_value <$> rows) (assessed_value <$> rows)))
    (zip_with (λ s a, negb (is_nan s) && is_nan a)
       (sale_value <$> rows) (assessed_value <$> rows))
    (sale_value <$> rows)
  = proxy_of true <$> rows.
Proof.
  induction rows as [|[s a] rows IH]; [done|].
  cbn [fmap list_fmap zip_with mask_assign sale_value assessed_value].
  rewrite IH. f_equal. unfold proxy_of. simpl.
  by destruct (is_nan s), (is_nan a).
Qed.

Lemma all_isna_proxy (rows : list valued) b :
  all_isna (sale_value <$> rows) = true →
  assessed_value <$> rows = proxy_of b <$> rows.
Proof.
  unfold all_isna. induction rows as [|[s a] rows IH]; [done|]. simpl.
  intros [Hs Hrest]%andb_true_iff. f_equal; [|by apply IH].
  unfold proxy_of. simpl. rewrite Hs. by rewrite andb_false_r.
Qed.

(** The two branches of [compute_market_value_proxy] agree: with an
    assessed column the result is, parcel by parcel, the mean of sale and
    assessed value where both are present, the sale value where only it
    is present, and the assessed value (missing or not) otherwise,
    whether the sale column is absent, all missing, or neither. Without an
    assessed column the call raises, whatever the sale column holds. *)
Theorem market_value_proxy_rowwise (parcels : valuation_table) :
  (has_assessed_field parcels = true →
   compute_market_value_proxy parcels
   = Ok (proxy_of (has_sale_field parcels) <$> valued_rows parcels)) ∧
  (has_assessed_field parcels = false →
   compute_market_value_proxy parcels = Raise AttributeError).
Proof.
  destruct parcels as [hs ha rows].
  unfold compute_market_value_proxy, get_sale, get_assessed. simpl. split.
  - intros ->. destruct hs; simpl.
    + destruct (all_isna (sale_value <$> rows)) eqn:Hall; simpl.
      * f_equal. by apply all_isna_proxy.
      * f_equal. apply mask_assign_rowwise.
    + done.
  - intros ->. destruct hs; simpl; [|done].
    by destruct (all_isna _).
Qed.

End UtilitiesFacts.

(** ** The workers at the edges of their input *)

Module WorkerFacts.
Import Py Np MpHelpers PyFacts FloatFacts Regression Workers.

Lemma py_index_wrap {A} (l : list A) (i : Z) :
  - Z.of_nat (length l) ≤ i < 0 →
  py_index l i = py_index l (i + Z.of_nat (length l)).
Proof.
  intros Hi. unfold py_index.
  rewrite (proj2 (Z.ltb_lt i 0)) by lia.
  by rewrite (proj2 (Z.ltb_ge (i + Z.of_nat (length l)) 0)) by lia.
Qed.

Lemma take_rows_out_of_range {A} (l : list A) idxs i :
  i ∈ idxs → out_of_range l i → raises (take_rows l idxs).
Proof.
  intros Hin Hout. induction idxs as [|k idxs IH]; [by apply elem_of_nil in Hin|].
  simpl. apply elem_of_cons in Hin as [<-|Hin].
  - rewrite (py_index_out_of_range l i Hout). by eexists.
  - destruct (py_index l k); [cbn|by eexists].
    destruct (IH Hin) as [e ->]. by eexists.
Qed.

Section adjacency.
Context {geom : Type}.
Variable intersection : geom → geom → res geom.
Variable area : geom → res float.

Abbreviation worker := (_pair_overlaps_area intersection area).

Lemma worker_positive (g : globals) i j :
  worker g [i; j] = Ok (Some (i, j)) ↔
  ∃ geoms gi gj inter a,
    _BUFFERED_GEOMS g = Some geoms ∧
    py_index geoms i = Ok gi ∧ py_index geoms j = Ok gj ∧
    intersection gi gj = Ok inter ∧
    getattr_area area inter = Ok a ∧ (0 <? a)%float = true.
Proof.
  unfold _pair_overlaps_area. rewrite pair_overlaps_area_pair. split.
  - destruct (_BUFFERED_GEOMS g) as [geoms|]; [cbn|done].
    destruct (py_index geoms i) as [gi|] eqn:Hi; [cbn|done].
    destruct (py_index geoms j) as [gj|] eqn:Hj; [cbn|done].
    destruct (intersection gi gj) as [inter|] eqn:Hint; [cbn|done].
    destruct (getattr_area area inter) as [a|] eqn:Ha; [cbn|done].
    destruct (0 <? a)%float eqn:Hpos; [|done].
    intros _. by exists geoms, gi, gj, inter, a.
  - intros (geoms & gi & gj & inter & a & Hg & Hi & Hj & Hint & Ha & Hpos).
    rewrite Hg. cbn. rewrite Hi. cbn. rewrite Hj. cbn. rewrite Hint. cbn.
    rewrite Ha. cbn. by rewrite Hpos.
Qed.

(** Indices are Python list indices: a negative index counts from the
    end, and the worker hands the pair back as it was given. So [(i, j)]
    with [i] negative is adjacent exactly when [(i + n, j)] is, [n] being
    the number of geometries, and the same for [j]: one geometric pair can
    be returned under several index pairs. *)
Theorem pair_overlaps_area_negative_index (g : globals) geoms (i j : Z) :
  _BUFFERED_GEOMS g = Some geoms →
  - Z.of_nat (length geoms) ≤ i < 0 →
  (worker g [i; j] = Ok (Some (i, j)) ↔
   worker g [i + Z.of_nat (length geoms); j]
   = Ok (Some (i + Z.of_nat (length geoms), j))) ∧
  (worker g [j; i] = Ok (Some (j, i)) ↔
   worker g [j; i + Z.of_nat (length geoms)]
   = Ok (Some (j, i + Z.of_nat (length geoms)))).
Proof.
  intros Hg Hi. rewrite !worker_positive.
  split; split; intros (geoms' & gi & gj & inter & a & Hg' & Hgi & Hgj & Hrest);
    exists geoms', gi, gj, inter, a; (split; [done|]);
    assert (geoms' = geoms) as -> by congruence;
    rewrite ?(py_index_wrap geoms i Hi) in *; done.
Qed.

End adjacency.

Section scoring.
Context {geom : Type} `{Engine}.
Implicit Types (g : @globals geom) (sub : parcels_table).

(** Without a payload the workers answer as if nothing overlapped and
    no tile had parcels: the adjacency worker returns no pair while the
    geometries are not set, and the scoring worker returns
    [(a, b, 0.0, 0, 0)] while the index mapping or the parcels table is
    not set. Neither raises. *)
Theorem workers_without_payload
    (intersection : geom → geom → res geom) (area : geom → res float) g :
  (_BUFFERED_GEOMS g = None →
   ∀ pair, _pair_overlaps_area intersection area g pair = Ok None) ∧
  (_PARCEL_IDX_BY_TILE g = None ∨ _PARCELS_MIN_DF g = None →
   ∀ a b, _score_edge_pair_worker g [a; b] = Ok (a, b, 0%float, 0, 0)).
Proof.
  split.
  - intros Hg pair. unfold _pair_overlaps_area, pair_overlaps_area_body.
    destruct pair as [|i [|j [|??]]]; try done. cbn. by rewrite Hg.
  - intros Hnone a b. unfold _score_edge_pair_worker.
    destruct (decide (gathered g a b = ∅)) as [He|Hne].
    + by rewrite body_empty.
    + destruct Hnone as [Hm|Hdf].
      * exfalso. apply Hne. unfold gathered. rewrite Hm. simpl.
        rewrite !lookup_empty. simpl. set_solver.
      * rewrite body_gathered by done. unfold gather. by rewrite Hdf.
Qed.

(** The counts of a result: for a pair [(a, b)] the worker returns the
    two ids as given; n_obs and n_sales are never negative and never
    above the number of parcel indices of the two tiles; and an r2 other
    than 0.0 comes only with at least 3 sale prices and at least 3
    complete rows. *)
Theorem score_edge_pair_counts g (a b : string) :
  ∃ r o s,
    _score_edge_pair_worker g [a; b] = Ok (a, b, r, o, s) ∧
    0 ≤ o ≤ Z.of_nat (size (gathered g a b)) ∧
    0 ≤ s ≤ Z.of_nat (size (gathered g a b)) ∧
    (r ≠ 0%float → 3 ≤ o ∧ 3 ≤ s).
Proof.
  unfold _score_edge_pair_worker.
  destruct (decide (gathered g a b = ∅)) as [He|Hne].
  { rewrite body_empty by done. exists 0%float, 0, 0. cbn. split_and!; (done || lia). }
  rewrite body_gathered by done.
  destruct (gather g a b) as [sub|] eqn:Hsub; cbn;
    [|exists 0%float, 0, 0; split_and!; (done || lia)].
  apply gather_length in Hsub. rewrite <- Hsub.
  assert (0 ≤ n_sales_of sub ≤ Z.of_nat (length (parcel_rows sub))) as Hs.
  { unfold n_sales_of, count_sales. destruct (has_adj_sale_price sub); [|lia].
    pose proof (length_filter (λ p, notna (adj_sale_price p) = true) (parcel_rows sub)).
    lia. }
  assert (Z.of_nat (length (dropna sub)) ≤ Z.of_nat (length (parcel_rows sub))) as Hd.
  { unfold dropna.
    pose proof (length_filter (λ p, complete p = true) (parcel_rows sub)). lia. }
  unfold score_gathered.
  destruct (n_sales_of sub <? 3) eqn:E1;
    [eexists _, _, _; split; [done|]; split_and!; (done || lia)|].
  destruct (negb (has_regression_columns sub));
    [eexists _, _, _; split; [done|]; split_and!; (done || lia)|].
  destruct (Z.of_nat (length (dropna sub)) <? 3) eqn:E3;
    [eexists _, _, _; split; [done|]; split_and!; (done || lia)|].
  apply Z.ltb_ge in E1, E3.
  eexists _, _, _. split; [done|]. split_and!; lia.
Qed.

(** One parcel index outside the parcels table costs the pair its
    result: the gather raises, and the worker returns
    [(a, b, 0.0, 0, 0)], the counts of the other parcels included. *)
Theorem score_edge_pair_bad_index g parcels (a b : string) (i : Z) :
  _PARCELS_MIN_DF g = Some parcels →
  i ∈ gathered g a b →
  out_of_range (parcel_rows parcels) i →
  _score_edge_pair_worker g [a; b] = Ok (a, b, 0%float, 0, 0).
Proof.
  intros Hdf Hin Hout. unfold _score_edge_pair_worker.
  assert (gathered g a b ≠ ∅) as Hne by set_solver.
  rewrite body_gathered by done. unfold gather, iloc. rewrite Hdf. cbn.
  destruct (take_rows_out_of_range (parcel_rows parcels) (elements (gathered g a b)) i)
    as [e ->]; [by apply elem_of_elements|done|done].
Qed.

Lemma score_gathered_cases (a b : string) sub :
  (score_gathered a b sub
   = (a, b, 0%float, Z.of_nat (length (parcel_rows sub)), n_sales_of sub) ∧
   (n_sales_of sub < 3 ∨ has_regression_columns sub = false
    ∨ Z.of_nat (length (dropna sub)) < 3)) ∨
  (score_gathered a b sub
   = (a, b, inline_r2 (target (dropna sub)) (design (dropna sub)),
      Z.of_nat (length (dropna sub)), n_sales_of sub) ∧
   (3 ≤ n_sales_of sub ∧ has_regression_columns sub = true
    ∧ 3 ≤ Z.of_nat (length (dropna sub)))).
Proof.
  destruct (Z.ltb_spec (n_sales_of sub) 3) as [Hs|Hs];
    [left; split; [apply score_gathered_low|]; auto|].
  destruct (has_regression_columns sub) eqn:Hc;
    [|left; split; [apply score_gathered_low|]; auto].
  destruct (Z.ltb_spec (Z.of_nat (length (dropna sub))) 3) as [Hn|Hn];
    [left; split; [apply score_gathered_low|]; auto|].
  right. split; [by apply score_gathered_fit|done].
Qed.

Lemma py_index_fmap {A B} (f : A → B) (l : list A) (i : Z) :
  py_index (f <$> l) i = f <$> py_index l i.
Proof.
  unfold py_index. rewrite length_fmap.
  destruct (_ && _); [|done]. rewrite list_lookup_fmap.
  by destruct (l !! _).
Qed.

Lemma take_rows_fmap {A B} (f : A → B) (l : list A) idxs :
  take_rows (f <$> l) idxs = (λ xs : list A, f <$> xs) <$> take_rows l idxs.
Proof.
  induction idxs as [|i idxs IH]; [done|]. simpl.
  rewrite py_index_fmap, IH.
  destruct (py_index l i); [cbn|done]. by destruct (take_rows l idxs).
Qed.

Lemma dropna_regression_fields (rows rows' : list parcel) :
  FitInputs.regression_fields <$> rows = FitInputs.regression_fields <$> rows' →
  target (filter (λ p, complete p = true) rows)
  = target (filter (λ p, complete p = true) rows') ∧
  design (filter (λ p, complete p = true) rows)
  = design (filter (λ p, complete p = true) rows') ∧
  length (filter (λ p, complete p = true) rows)
  = length (filter (λ p, complete p = true) rows').
Proof.
  revert rows'. induction rows as [|p rows IH]; intros [|p' rows']; try done.
  intros [= Hv Hb Hl Hrest]. destruct (IH rows' Hrest) as (Ht & Hd & Hn).
  assert (complete p = complete p') as Hc by (unfold complete; by rewrite Hv, Hb, Hl).
  rewrite !filter_cons, Hc.
  destruct (decide (complete p' = true)); [|done].
  unfold target, design in *. cbn. by rewrite Hv, Hb, Hl, Ht, Hd, Hn.
Qed.

(** The sale prices only decide whether the fit is run. Between two payloads
    with the same index mapping and the same regression columns, a pair
    that has at least 3 sale prices in both gets the same r2 and the same
    n_obs in both, whatever the prices are. *)
Theorem fit_ignores_sale_prices g g' t t' (a b : string) r o s r' o' s' :
  _PARCEL_IDX_BY_TILE g = _PARCEL_IDX_BY_TILE g' →
  _PARCELS_MIN_DF g = Some t → _PARCELS_MIN_DF g' = Some t' →
  FitInputs.same_regression_data t t' →
  _score_edge_pair_worker g [a; b] = Ok (a, b, r, o, s) →
  _score_edge_pair_worker g' [a; b] = Ok (a, b, r', o', s') →
  3 ≤ s → 3 ≤ s' →
  r = r' ∧ o = o'.
Proof.
  intros Hmap Ht Ht' (Hv & Hb & Hl & Hrows) Hw Hw' Hs Hs'.
  assert (gathered g' a b = gathered g a b) as Hg by (unfold gathered; by rewrite Hmap).
  unfold _score_edge_pair_worker in Hw, Hw'.
  destruct (decide (gathered g a b = ∅)) as [He|Hne].
  { rewrite body_empty in Hw by done. injection Hw as <- <- <-. lia. }
  rewrite body_gathered in Hw, Hw' by congruence.
  unfold gather, iloc in Hw, Hw'. rewrite Hg, Ht' in Hw'. rewrite Ht in Hw.
  cbn in Hw, Hw'.
  destruct (take_rows (parcel_rows t) _) as [rows|] eqn:Hr; cbn in Hw;
    [|injection Hw as <- <- <-; lia].
  destruct (take_rows (parcel_rows t') _) as [rows'|] eqn:Hr'; cbn in Hw';
    [|injection Hw' as <- <- <-; lia].
  assert (FitInputs.regression_fields <$> rows = FitInputs.regression_fields <$> rows')
    as Hsame.
  { pose proof (take_rows_fmap FitInputs.regression_fields (parcel_rows t)
                  (elements (gathered g a b))) as Hf.
    pose proof (take_rows_fmap FitInputs.regression_fields (parcel_rows t')
                  (elements (gathered g a b))) as Hf'.
    rewrite Hr in Hf. rewrite Hr' in Hf'. rewrite Hrows, Hf' in Hf.
    cbn in Hf. by injection Hf. }
  destruct (dropna_regression_fields rows rows' Hsame) as (Htg & Hdg & Hn).
  apply (f_equal length) in Hsame. rewrite !length_fmap in Hsame.
  injection Hw as Hw. injection Hw' as Hw'.
  match type of Hw with score_gathered _ _ ?x = _ => set (sub := x) in * end.
  match type of Hw' with score_gathered _ _ ?x = _ => set (sub' := x) in * end.
  assert (has_regression_columns sub = has_regression_columns sub') as Hc
    by (unfold has_regression_columns; simpl; by rewrite Hv, Hb, Hl).
  assert (dropna sub = filter (λ p, complete p = true) rows) as Hd by done.
  assert (dropna sub' = filter (λ p, complete p = true) rows') as Hd' by done.
  destruct (score_gathered_cases a b sub) as [[Hsg Hlow]|[Hsg Hfit]];
    destruct (score_gathered_cases a b sub') as [[Hsg' Hlow']|[Hsg' Hfit']];
    rewrite Hsg in Hw; rewrite Hsg' in Hw';
    injection Hw as <- <- <-; injection Hw' as <- <- <-.
  - split; [done|]. simpl. lia.
  - exfalso. rewrite Hd, Hd' in *. destruct Hfit' as (_ & Hc' & Hn').
    destruct Hlow as [?|[?|?]]; [lia|congruence|lia].
  - exfalso. rewrite Hd, Hd' in *. destruct Hfit as (_ & Hc' & Hn').
    destruct Hlow' as [?|[?|?]]; [lia|congruence|lia].
  - rewrite Hd, Hd', Htg, Hdg, Hn. done.
Qed.

(** The counts of a pair do not depend on which of its two tiles comes
    first. *)
Theorem swapped_pair_same_counts g (a b : string) :
  ∃ r r' o s,
    _score_edge_pair_worker g [a; b] = Ok (a, b, r, o, s) ∧
    _score_edge_pair_worker g [b; a] = Ok (b, a, r', o, s).
Proof.
  assert (gathered g b a = gathered g a b) as Hg
    by (unfold gathered; apply (comm_L (∪))).
  unfold _score_edge_pair_worker.
  destruct (decide (gathered g a b = ∅)) as [He|Hne].
  { rewrite !body_empty by congruence. by eexists _, _, _, _. }
  rewrite !body_gathered by congruence. unfold gather. rewrite Hg.
  destruct (parcels ← the AttributeError (_PARCELS_MIN_DF g);
            iloc parcels (elements (gathered g a b))) as [sub|]; cbn;
    [|by eexists _, _, _, _].
  unfold score_gathered. repeat case_match; by eexists _, _, _, _.
Qed.

End scoring.

Section initializers.
Context {geom : Type} `{Engine}.
Variable intersection : geom → geom → res geom.
Variable area : geom → res float.

(** The two payloads do not meet: the adjacency worker answers the same
    whatever [_init_pool_edges] installed, the scoring worker the same
    whatever [_init_pool_buffered] installed, the two initializers can
    run in either order, and a second call of an initializer replaces
    what the first installed. *)
Theorem initializers_independent (g : @globals geom) geoms t m :
  (∀ pair, _pair_overlaps_area intersection area (_init_pool_edges t m g) pair
           = _pair_overlaps_area intersection area g pair) ∧
  (∀ pair, _score_edge_pair_worker (_init_pool_buffered geoms g) pair
           = _score_edge_pair_worker g pair) ∧
  _init_pool_edges t m (_init_pool_buffered geoms g)
  = _init_pool_buffered geoms (_init_pool_edges t m g) ∧
  (∀ geoms0 t0 m0,
     _init_pool_buffered geoms (_init_pool_buffered geoms0 g) = _init_pool_buffered geoms g ∧
     _init_pool_edges t m (_init_pool_edges t0 m0 g) = _init_pool_edges t m g).
Proof. split_and!; done. Qed.

End initializers.

End WorkerFacts.

(** ** The cache key *)

Module CacheKeyFacts.
Import Py CacheIO CacheKeys PyFacts CacheValid CacheValidSpec FloatFacts.

(** IEEE equality is symmetric, and transitive. *)
Lemma SFcompare_Eq_trans x y z :
  SFcompare x y = Some Eq → SFcompare y z = Some Eq → SFcompare x z = Some Eq.
Proof.
  destruct x as [sx|sx| |sx mx ex], y as [sy|sy| |sy my ey], z as [sz|sz| |sz mz ez];
    simpl; try done;
    try (by destruct sx); try (by destruct sy); try (by destruct sz);
    try (by destruct sx, sy); try (by destruct sy, sz); try (by destruct sx, sz);
    try (by destruct sx, sy, sz).
  destruct sx, sy; try done; destruct sz; try done;
    destruct (ex ?= ey)%Z eqn:E1; try done; destruct (ey ?= ez)%Z eqn:E2; try done;
    apply Z.compare_eq in E1 as ->; apply Z.compare_eq in E2 as ->;
    rewrite Z.compare_refl;
    intros H1 H2; injection H1 as H1; injection H2 as H2.
  - apply (f_equal CompOpp) in H1, H2. rewrite CompOpp_involutive in H1, H2.
    simpl in H1, H2. apply Pos.compare_eq in H1 as ->. apply Pos.compare_eq in H2 as ->.
    fold (Pos.compare mz mz). by rewrite Pos.compare_refl.
  - apply Pos.compare_eq in H1 as ->. apply Pos.compare_eq in H2 as ->.
    fold (Pos.compare mz mz). by rewrite Pos.compare_refl.
Qed.

Lemma float_eqb_sym (x y : float) : (x =? y)%float = (y =? x)%float.
Proof.
  rewrite !FloatAxioms.eqb_spec. unfold SFeqb.
  rewrite (SFcompare_antisym (Prim2SF x) (Prim2SF y)).
  by destruct (SFcompare (Prim2SF x) (Prim2SF y)) as [[]|].
Qed.

Lemma float_eqb_trans (x y z : float) :
  (x =? y)%float = true → (y =? z)%float = true → (x =? z)%float = true.
Proof.
  rewrite !FloatAxioms.eqb_spec. unfold SFeqb.
  destruct (SFcompare (Prim2SF x) (Prim2SF y)) as [[]|] eqn:E1; try done.
  destruct (SFcompare (Prim2SF y) (Prim2SF z)) as [[]|] eqn:E2; try done.
  by rewrite (SFcompare_Eq_trans _ _ _ E1 E2).
Qed.

Lemma opt_float_eqb_sym a b : opt_float_eqb a b = opt_float_eqb b a.
Proof. destruct a, b; simpl; try done. apply float_eqb_sym. Qed.

Lemma opt_float_eqb_trans a b c :
  opt_float_eqb a b = true → opt_float_eqb b c = true → opt_float_eqb a c = true.
Proof. destruct a, b, c; simpl; try done. apply float_eqb_trans. Qed.


Lemma sorted_perm (l l' : list string) : l ≡ₚ l' → sorted l = sorted l'.
Proof.
  intros Hp. unfold sorted.
  apply (Sorted_unique String.le); [apply Sorted_merge_sort, _..|].
  by rewrite !merge_sort_Permutation.
Qed.

Lemma sorted_length (l : list string) : length (sorted l) = length l.
Proof. unfold sorted. by rewrite merge_sort_Permutation. Qed.

Lemma tiles_signature_id_column sha t :
  _tiles_signature sha t =
  match id_column t with
  | None => PDict [("n_tiles", PNone); ("keys_hash", PNone)]
  | Some keys =>
      PDict [("n_tiles", PInt (Z.of_nat (length (sorted keys))));
             ("keys_hash", PStr (sha (String.concat newline (sorted keys))))]
  end.
Proof. reflexivity. Qed.

Lemma tiles_identity_id_column sha t :
  tiles_identity sha t =
  match id_column t with
  | None => {| ts_n_tiles := None; ts_keys_hash := None |}
  | Some keys =>
      {| ts_n_tiles := Some (Z.of_nat (length (sorted keys)));
         ts_keys_hash := Some (sha (String.concat newline (sorted keys))) |}
  end.
Proof. unfold tiles_identity, id_column. by destruct (col_tile_key t), (col_key t). Qed.

(** The signature of a tile table does not depend on the order of its
    rows: two tables whose identifier columns hold the same ids, each as
    often, in whatever order, have the same signature. Only the column
    that is read counts ([tile_key], or [key] when there is no
    [tile_key]). *)
Theorem tiles_signature_order_independent (sha : string → string) t t' keys keys' :
  id_column t = Some keys → id_column t' = Some keys' → keys ≡ₚ keys' →
  _tiles_signature sha t = _tiles_signature sha t'.
Proof.
  intros Ht Ht' Hp. rewrite !tiles_signature_id_column, Ht, Ht'.
  by rewrite (sorted_perm keys keys' Hp).
Qed.

(** A change in the number of tiles is a cache miss whatever the digest
    function does (a collision included), and whatever else the two
    fingerprints hold. *)
Theorem tile_count_change_misses stat stat' (sha sha' : string → string)
    pp tp pp' tp' bf bf' crs crs' k k' t t' keys keys' :
  id_column t = Some keys → id_column t' = Some keys' →
  length keys ≠ length keys' →
  cache_valid (make_cache_key stat sha pp tp bf crs k t)
              (make_cache_key stat' sha' pp' tp' bf' crs' k' t') = Ok false.
Proof.
  intros Ht Ht' Hlen. rewrite !make_cache_key_layout, cache_valid_matchb. f_equal.
  apply not_true_is_false. rewrite matchb_spec. intros (_ & _ & Hsig & _).
  simpl in Hsig. rewrite !tiles_identity_id_column, Ht, Ht' in Hsig.
  injection Hsig as Hn _. rewrite !sorted_length in Hn. lia.
Qed.

Lemma float_eqb_refl (x : float) : (x =? x)%float = true ↔ is_nan x = false.
Proof. unfold is_nan. by destruct (x =? x)%float. Qed.

Lemma stat_identity_mtime stat path :
  opt_float_eqb (fi_mtime (stat_identity stat path)) (fi_mtime (stat_identity stat path))
  = true ↔ mtime_is_number stat path.
Proof.
  unfold stat_identity, mtime_is_number. destruct (stat path) as [st|e]; simpl.
  - rewrite float_eqb_refl. split; [by intros ? ? [= <-]|by intros Hn; apply Hn].
  - split; [by intros _ ?|done].
Qed.

(** A run that saves its key, and a later run over unchanged inputs:
    the later run loads the key that was saved, and it validates against
    the key the later run computes exactly when [buffer_feet] and the two
    modification times are numbers. With [buffer_feet = nan] the cache is
    written and never hit. *)
Theorem saved_key_validates fs adjacency edge_scores dir prefix fs'
    stat (sha : string → string) pp tp bf crs k t :
  save_cache fs adjacency edge_scores (make_cache_key stat sha pp tp bf crs k t)
    dir prefix = Ok fs' →
  ∃ adj sc,
    load_cache fs' dir prefix
    = Ok (fs', (Some (make_cache_key stat sha pp tp bf crs k t), adj, sc)) ∧
    (cache_valid (make_cache_key stat sha pp tp bf crs k t)
                 (make_cache_key stat sha pp tp bf crs k t) = Ok true
     ↔ is_nan bf = false ∧ mtime_is_number stat pp ∧ mtime_is_number stat tp).
Proof.
  intros Hs. eexists _, _. split.
  { apply CacheStore.load_cache_saved. by eapply CacheStore.save_cache_saved. }
  rewrite make_cache_key_layout, cache_valid_matchb.
  rewrite <- !stat_identity_mtime, <- float_eqb_refl.
  unfold matchb.
  rewrite String.eqb_refl, Z.eqb_refl, !bool_decide_eq_true_2 by done.
  rewrite !andb_true_r. cbn [andb fp_params fp_parcels fp_tiles ps_buffer_feet].
  split.
  - intros [= Hb]. by apply andb_true_iff in Hb as [[Hb ?]%andb_true_iff ?].
  - intros (-> & -> & ->). done.
Qed.

Lemma py_get_other_key k v d key default :
  key ≠ k → py_get (PDict ((k, v) :: d)) key default = py_get (PDict d) key default.
Proof. intros Hne. simpl. by rewrite (proj2 (String.eqb_neq key k)). Qed.

(** [cache_valid] reads five keys of the metadata and no other: an
    entry under any other key, on either side, changes nothing. *)
Theorem cache_valid_ignores_other_keys (k : string) (v : pyval) d (m : pyval) :
  k ∉ compared_keys →
  cache_valid (PDict ((k, v) :: d)) m = cache_valid (PDict d) m ∧
  cache_valid m (PDict ((k, v) :: d)) = cache_valid m (PDict d).
Proof.
  unfold compared_keys. rewrite !not_elem_of_cons. intros (?&?&?&?&?&_).
  unfold cache_valid, cache_valid_body, get2.
  by rewrite !(py_get_other_key k v d) by done.
Qed.

End CacheKeyFacts.

(** ** The cache files and the tables read back from them *)

Module CacheStoreFacts.
Import Py CacheIO CacheKeys PyFacts Adjacency CacheStore RoundTrip.

Lemma ltb_irrefl (a : string) : String.ltb a a = false.
Proof.
  unfold String.ltb. pose proof (String.compare_antisym a a) as Hc.
  by destruct (String.compare a a).
Qed.

Lemma ltb_asym (a b : string) : String.ltb a b = true → String.ltb b a = false.
Proof.
  unfold String.ltb. rewrite (String.compare_antisym b a).
  by destruct (String.compare a b).
Qed.

Lemma le_ne_ltb (a b : string) : String.le a b → a ≠ b → String.ltb a b = true.
Proof.
  unfold String.le, String.leb, String.ltb. intros Hle Hne.
  destruct (String.compare a b) eqn:Hc; [|done..].
  by apply String.compare_eq_iff in Hc.
Qed.

(** The edge list [save_cache] writes holds every edge once and in one
    orientation: no row is repeated, each row has its smaller id first
    and is an entry of the mapping, and the reversed row is never
    written. *)
Theorem adjacency_rows_canonical adj :
  NoDup (adjacency_rows adj) ∧
  ∀ a b, (a, b) ∈ adjacency_rows adj →
    String.ltb a b = true ∧ b ∈ neighbors adj a ∧ (b, a) ∉ adjacency_rows adj.
Proof.
  split.
  - unfold adjacency_rows. apply NoDup_bind.
    + intros [a nbs] [a' nbs'] [x y] Hin Hin' Hx Hy.
      apply list_elem_of_bind in Hx as (b & Hx & _), Hy as (b' & Hy & _).
      destruct (String.ltb a b); [|by apply not_elem_of_nil in Hx].
      destruct (String.ltb a' b'); [|by apply not_elem_of_nil in Hy].
      apply list_elem_of_singleton in Hx, Hy. simplify_eq.
      apply elem_of_map_to_list in Hin, Hin'. congruence.
    + intros [a nbs] _. apply NoDup_bind.
      * intros b b' [x y] _ _ Hx Hy.
        destruct (String.ltb a b); [|by apply not_elem_of_nil in Hx].
        destruct (String.ltb a b'); [|by apply not_elem_of_nil in Hy].
        apply list_elem_of_singleton in Hx, Hy. by simplify_eq.
      * intros b _. destruct (String.ltb a b); [apply NoDup_singleton | apply NoDup_nil_2].
      * apply NoDup_elements.
    + apply NoDup_map_to_list.
  - intros a b Hin. apply elem_of_adjacency_rows in Hin as [Hb Hlt].
    split_and!; [done..|].
    rewrite elem_of_adjacency_rows. intros [_ Hlt'].
    by rewrite (ltb_asym a b Hlt) in Hlt'.
Qed.

Lemma foldl_add_row_no_empty rows (adj : gmap string (gset string)) :
  (∀ a, adj !! a ≠ Some ∅) → ∀ a, foldl add_row adj rows !! a ≠ Some ∅.
Proof.
  revert adj. induction rows as [|[x y] rows IH]; intros adj Hadj; [done|].
  change (foldl add_row adj ((x, y) :: rows))
    with (foldl add_row (add_row adj (x, y)) rows).
  apply IH. intros a. unfold add_row, add_neighbor.
  destruct (decide (a = y)) as [->|]; [rewrite lookup_insert_eq; intros [= He]; set_solver|].
  rewrite lookup_insert_ne by done.
  destruct (decide (a = x)) as [->|]; [rewrite lookup_insert_eq; intros [= He]; set_solver|].
  by rewrite lookup_insert_ne.
Qed.

(** An entry of the graph built from a frame is the neighbour set of its
    tile, and there is an entry exactly for the tiles that have a
    neighbour. *)
Lemma df_to_adjacency_lookup df a :
  df_to_adjacency (Some df) !! a =
  if decide (neighbors (df_to_adjacency (Some df)) a = ∅) then None
  else Some (neighbors (df_to_adjacency (Some df)) a).
Proof.
  pose proof (foldl_add_row_no_empty (tile_columns df) ∅) as Hne.
  rewrite <- df_to_adjacency_foldl in Hne. specialize (Hne ltac:(done) a).
  unfold neighbors. destruct (df_to_adjacency (Some df) !! a) as [s|]; simpl.
  - rewrite decide_False; [done|]. by intros ->.
  - by rewrite decide_True.
Qed.

(** The graph [df_to_adjacency] builds has an entry exactly for the
    tiles that occur in some row, at either end; no entry holds an empty
    set. A tile without edges has no entry. *)
Theorem df_to_adjacency_domain df a :
  (is_Some (df_to_adjacency (Some df) !! a) ↔ endpoint (tile_columns df) a) ∧
  df_to_adjacency (Some df) !! a ≠ Some ∅.
Proof.
  rewrite df_to_adjacency_lookup. unfold endpoint.
  destruct (decide (neighbors (df_to_adjacency (Some df)) a = ∅)) as [He|Hne].
  - split; [|done]. split; [by intros [? ?]|].
    intros [b Hb]. apply elem_of_df_to_adjacency in Hb. set_solver.
  - split; [|by intros [= ?]]. split; [|eauto].
    intros _. apply set_choose_L in Hne as [b Hb].
    exists b. by apply elem_of_df_to_adjacency.
Qed.

(** Two frames with the same edges, whatever the order of their rows,
    however often a row is repeated and whichever way round its two ids
    are, give equal graphs. *)
Theorem df_to_adjacency_same_edges df df' :
  (∀ a b, (a, b) ∈ tile_columns df ∨ (b, a) ∈ tile_columns df ↔
          (a, b) ∈ tile_columns df' ∨ (b, a) ∈ tile_columns df') →
  df_to_adjacency (Some df) = df_to_adjacency (Some df').
Proof.
  intros Hsame. apply map_eq. intros a. rewrite !df_to_adjacency_lookup.
  assert (neighbors (df_to_adjacency (Some df)) a
          = neighbors (df_to_adjacency (Some df')) a) as ->; [|done].
  apply set_eq. intros b. rewrite !elem_of_df_to_adjacency. apply Hsame.
Qed.

(** Saving an arbitrary adjacency mapping and loading it back: a pair
    is an edge of the result exactly when the mapping records it at its
    smaller endpoint. So the result is symmetric and has no self-loop
    whatever was saved; an edge recorded only at its larger endpoint is
    lost; and saving the result again changes nothing. *)
Theorem reloaded_adjacency adj :
  (∀ x y, y ∈ neighbors (reloaded adj) x ↔
          (y ∈ neighbors adj x ∧ String.ltb x y = true) ∨
          (x ∈ neighbors adj y ∧ String.ltb y x = true)) ∧
  symmetric (reloaded adj) ∧ loop_free (reloaded adj) ∧
  reloaded (reloaded adj) = reloaded adj.
Proof.
  assert (Hchar : ∀ adj x y, y ∈ neighbors (reloaded adj) x ↔
          (y ∈ neighbors adj x ∧ String.ltb x y = true) ∨
          (x ∈ neighbors adj y ∧ String.ltb y x = true)).
  { intros adj0 x y. unfold reloaded. rewrite elem_of_df_to_adjacency. simpl.
    by rewrite !elem_of_adjacency_rows. }
  assert (Hsym : symmetric (reloaded adj)).
  { intros x y. rewrite !Hchar. tauto. }
  assert (Hloop : loop_free (reloaded adj)).
  { intros x. rewrite Hchar, ltb_irrefl. naive_solver. }
  split_and!; [apply Hchar|done..|].
  apply map_eq. intros a. unfold reloaded at 1 3. rewrite !df_to_adjacency_lookup.
  fold (reloaded (reloaded adj)). fold (reloaded adj).
  assert (neighbors (reloaded (reloaded adj)) a = neighbors (reloaded adj) a) as ->; [|done].
  by apply adjacency_round_trip.
Qed.

Lemma df_to_edge_scores_foldl df :
  df_to_edge_scores (Some df) = foldl add_score ∅ (score_columns df).
Proof.
  unfold df_to_edge_scores.
  destruct (Nat.eqb_spec (df_len df) 0) as [Hlen|_]; [|done].
  destruct df as [[|??]|[|??]]; done.
Qed.

(** The score [df_to_edge_scores] holds under a key is that of the last
    row for the key: rows are keyed by the unordered pair of their ids,
    so a later row for the same pair, in either order, replaces an
    earlier one, and rows with an empty id count for nothing. A key no
    such row has is absent. *)
Theorem df_to_edge_scores_last_row rows k :
  df_to_edge_scores (Some (ScoresFrame rows)) !! k = row_score <$> last (rows_for k rows).
Proof.
  rewrite df_to_edge_scores_foldl. cbn [score_columns]. unfold rows_for.
  induction rows as [|row rows IH] using rev_ind; [done|].
  rewrite fmap_app, foldl_app, filter_app. cbn [fmap list_fmap foldl add_score].
  destruct (String.eqb_spec (sr_tile_a row) "") as [Ha|Ha]; cbn [orb].
  { rewrite filter_cons_False, filter_nil, app_nil_r by tauto. exact IH. }
  destruct (String.eqb_spec (sr_tile_b row) "") as [Hb|Hb].
  { rewrite filter_cons_False, filter_nil, app_nil_r by tauto. exact IH. }
  destruct (decide (row_key row = k)) as [Hk|Hk].
  - rewrite filter_cons_True, filter_nil, last_snoc by done.
    unfold row_key in Hk. rewrite Hk. by rewrite lookup_insert_eq.
  - rewrite filter_cons_False, filter_nil, app_nil_r by tauto.
    rewrite lookup_insert_ne; [exact IH|done].
Qed.

Lemma unpack_sorted_Ok k a b :
  unpack_sorted k = Ok (a, b) ↔ k = {[a; b]} ∧ String.ltb a b = true.
Proof.
  assert (Hto : ∀ k a b, unpack_sorted k = Ok (a, b) → k = {[a; b]} ∧ String.ltb a b = true).
  { clear. intros k a b. unfold unpack_sorted, sorted.
    pose proof (merge_sort_Permutation String.le (elements k)) as Hperm.
    pose proof (Sorted_merge_sort String.le (elements k)) as Hsorted.
    destruct (merge_sort String.le (elements k)) as [|x [|y [|??]]]; try done.
    intros [= -> ->].
    assert (a ≠ b) as Hne.
    { pose proof (NoDup_elements k) as Hnd. rewrite <- Hperm in Hnd.
      apply NoDup_cons in Hnd as [Hnd _]. set_solver. }
    split.
    - apply set_eq. intros z. rewrite <- elem_of_elements, <- Hperm. set_solver.
    - apply le_ne_ltb; [|done].
      apply Sorted_inv in Hsorted as [_ Hhd]. by apply HdRel_inv in Hhd. }
  split; [apply Hto|].
  intros [-> Hlt].
  assert (a ≠ b) as Hne by (intros ->; by rewrite ltb_irrefl in Hlt).
  destruct (unpack_sorted_pair a b Hne) as (x & y & Heq & [[-> ->]|[-> ->]]); [done|].
  apply Hto in Heq as [_ Hlt']. by rewrite (ltb_asym a b Hlt) in Hlt'.
Qed.

Lemma score_fields_shape r o s :
  score_fields (ScoreRecord r o s) = (r, o, s) ∧ score_fields (ScoreDict r o s) = (r, o, s).
Proof. by destruct r. Qed.

(** The scores table [save_cache] writes: a row is written exactly for
    the keys of two distinct ids, with the smaller id first, and carries
    the fields of the entry, [0.0], [0] and [0] standing for a missing
    one, whether the entry is an object or a dict. An entry whose key
    does not hold two ids is left out. *)
Theorem score_rows_canonical edge_scores row :
  row ∈ score_rows edge_scores ↔
  String.ltb (sr_tile_a row) (sr_tile_b row) = true ∧
  ∃ r o s,
    (edge_scores !! row_key row = Some (ScoreRecord r o s) ∨
     edge_scores !! row_key row = Some (ScoreDict r o s)) ∧
    row_score row = {| r2 := default 0%float r; n_obs := default 0 o; n_sales := default 0 s |}.
Proof.
  unfold score_rows. rewrite list_elem_of_bind. split.
  - intros ([k es] & Hrow & Hk). apply elem_of_map_to_list in Hk.
    unfold score_row_of in Hrow.
    destruct (unpack_sorted k) as [[a b]|] eqn:Hun; [|by apply not_elem_of_nil in Hrow].
    apply unpack_sorted_Ok in Hun as [-> Hlt].
    assert (∃ r o s, (es = ScoreRecord r o s ∨ es = ScoreDict r o s) ∧
                     score_fields es = (r, o, s)) as (r & o & s & Hes & Hf).
    { destruct es as [r o s|r o s]; exists r, o, s;
        (split; [auto | apply score_fields_shape]). }
    rewrite Hf in Hrow. apply list_elem_of_singleton in Hrow as ->.
    split; [done|]. exists r, o, s. unfold row_key. simpl.
    split; [|done]. destruct Hes as [-> | ->]; auto.
  - intros (Hlt & r & o & s & Hes & Hrow).
    assert (∃ es, edge_scores !! row_key row = Some es ∧ score_fields es = (r, o, s))
      as (es & Hk & Hf).
    { destruct Hes as [Hk|Hk]; eexists; (split; [exact Hk | apply score_fields_shape]). }
    exists (row_key row, es). split; [|by apply elem_of_map_to_list].
    unfold score_row_of.
    rewrite (proj2 (unpack_sorted_Ok (row_key row) (sr_tile_a row) (sr_tile_b row)))
      by done.
    rewrite Hf. destruct row as [a b r' o' s']. injection Hrow as -> -> ->.
    apply list_elem_of_here.
Qed.

Lemma mkdir_p_Raise fs d e :
  mkdir_p fs d = Raise e ↔ e = OSError ∧ ∃ acc c, fs !! d = Some (RegularFile acc c).
Proof.
  unfold mkdir_p. destruct (fs !! d) as [[|acc c]|]; split; try done.
  - by intros (_ & ? & ? & ?).
  - intros [= <-]. eauto.
  - by intros [-> _].
  - by intros (_ & ? & ? & ?).
Qed.


Lemma write_file_Ok_writable fs p c fs' :
  write_file fs p c = Ok fs' → writable fs p.
Proof.
  unfold write_file, writable. destruct (fs !! p) as [[|[] c']|]; try done; eauto.
Qed.


End CacheStoreFacts.

(** ** The further properties on the sample inputs *)

Module MoreScenarios.
Import Py CacheIO CacheKeys Np MpHelpers FitInputs Samples MoreSamples.
Import CacheStore CacheKeyFacts CacheStoreFacts WorkerFacts.

Lemma tiles_signature_order_independent_witness :
  _tiles_signature plain_digest tiles_by_row = _tiles_signature plain_digest tiles_shuffled.
Proof.
  apply (tiles_signature_order_independent plain_digest tiles_by_row tiles_shuffled
           ["b"; "a"; "c"] ["c"; "b"; "a"]); [reflexivity..|].
  transitivity ["a"; "b"; "c"]; [apply perm_swap|].
  symmetry. apply (reverse_Permutation ["a"; "b"; "c"]).
Defined.

Lemma tile_count_change_misses_witness :
  cache_valid fresh_key
    (make_cache_key stat_fixed no_digest "parcels.gpkg" "tiles.gpkg" 50%float (Some 2263) 8
       tiles_fewer) = Ok false.
Proof.
  apply (tile_count_change_misses stat_fixed stat_fixed plain_digest no_digest
           "parcels.gpkg" "tiles.gpkg" "parcels.gpkg" "tiles.gpkg" 50%float 50%float
           (Some 2263) (Some 2263) 8 8 tiles_by_row tiles_fewer
           ["b"; "a"; "c"] ["a"; "b"]); [reflexivity..|].
  simpl. lia.
Defined.

Lemma saved_key_validates_witness :
  ∃ fs' adj sc,
    save_cache ∅ two_tiles two_tiles_scores fresh_key ".cache" "init" = Ok fs' ∧
    load_cache fs' ".cache" "init" = Ok (fs', (Some fresh_key, adj, sc)) ∧
    cache_valid fresh_key fresh_key = Ok true.
Proof.
  destruct (save_cache_returns ∅ two_tiles two_tiles_scores fresh_key ".cache" "init")
    as [fs' Hs].
  { unfold cache_writable, writable. rewrite !lookup_empty. auto. }
  destruct (saved_key_validates ∅ two_tiles two_tiles_scores ".cache" "init" fs'
              stat_fixed plain_digest "parcels.gpkg" "tiles.gpkg" 50%float (Some 2263) 8
              tiles_by_row Hs) as (adj & sc & Hl & Hv).
  exists fs', adj, sc. split_and!; [done..|].
  apply Hv. split_and!; [reflexivity|by intros st [= <-]..].
Defined.

Lemma cache_valid_ignores_other_keys_witness :
  cache_valid (PDict (("host", PStr "build-7") :: items_of fresh_key)) fresh_key
  = cache_valid (PDict (items_of fresh_key)) fresh_key ∧
  cache_valid fresh_key (PDict (("host", PStr "build-7") :: items_of fresh_key))
  = cache_valid fresh_key (PDict (items_of fresh_key)).
Proof.
  apply (cache_valid_ignores_other_keys "host" (PStr "build-7") (items_of fresh_key) fresh_key).
  unfold compared_keys. rewrite !not_elem_of_cons. split_and!; [done..|].
  apply not_elem_of_nil.
Defined.

Lemma pair_overlaps_area_negative_index_witness :
  (_pair_overlaps_area rect_intersection rect_area payload [-3; 1] = Ok (Some (-3, 1)) ↔
   _pair_overlaps_area rect_intersection rect_area payload [0; 1] = Ok (Some (0, 1))) ∧
  (_pair_overlaps_area rect_intersection rect_area payload [1; -3] = Ok (Some (1, -3)) ↔
   _pair_overlaps_area rect_intersection rect_area payload [1; 0] = Ok (Some (1, 0))).
Proof.
  apply (pair_overlaps_area_negative_index rect_intersection rect_area payload
           three_squares (-3) 1); [reflexivity | simpl; lia].
Defined.

Lemma payload_bad_index_gathered :
  gathered payload_bad_index "t1" "t2" = {[ 0; 1 ]} ∪ {[ 2; 3; 5 ]}.
Proof. unfold gathered, payload_bad_index. simpl. by simplify_map_eq. Qed.

Lemma score_edge_pair_bad_index_witness :
  @_score_edge_pair_worker rect left_to_right payload_bad_index ["t1"; "t2"]
  = Ok ("t1", "t2", 0%float, 0, 0).
Proof.
  apply (@score_edge_pair_bad_index rect left_to_right payload_bad_index five_parcels
           "t1" "t2" 5).
  - reflexivity.
  - rewrite payload_bad_index_gathered. set_solver.
  - right. simpl. lia.
Defined.

Lemma fit_ignores_sale_prices_witness :
  same_regression_data five_parcels five_parcels_repriced ∧
  @_score_edge_pair_worker rect left_to_right payload ["t1"; "t2"]
  = Ok ("t1", "t2", 0%float, 4, 4) ∧
  @_score_edge_pair_worker rect left_to_right payload_repriced ["t1"; "t2"]
  = Ok ("t1", "t2", 0%float, 4, 4) ∧
  (0%float = 0%float ∧ 4 = 4).
Proof.
  assert (Hsame : same_regression_data five_parcels five_parcels_repriced)
    by (by split_and!).
  assert (Hw : @_score_edge_pair_worker rect left_to_right payload ["t1"; "t2"]
               = Ok ("t1", "t2", 0%float, 4, 4)) by (vm_compute; reflexivity).
  assert (Hw' : @_score_edge_pair_worker rect left_to_right payload_repriced ["t1"; "t2"]
                = Ok ("t1", "t2", 0%float, 4, 4)) by (vm_compute; reflexivity).
  split_and!; [done..|].
  apply (@fit_ignores_sale_prices rect left_to_right payload payload_repriced
           five_parcels five_parcels_repriced "t1" "t2" 0%float 4 4 0%float 4 4);
    [reflexivity | reflexivity | reflexivity | exact Hsame | exact Hw | exact Hw' | lia | lia].
Defined.

Lemma df_to_adjacency_same_edges_witness :
  df_to_adjacency (Some edges_once) = df_to_adjacency (Some edges_shuffled).
Proof.
  apply (df_to_adjacency_same_edges edges_once edges_shuffled).
  intros a b. simpl. rewrite !elem_of_cons, !elem_of_nil. naive_solver.
Defined.

End MoreScenarios.
